(** * MINGROC++ : the backtracking line search

    A shallow embedding of [LineSearchBacktracking<Scalar, Index>::LineSearch]
    (include/LBFGS/LineSearchBacktracking.cpp) and the properties of it that
    the specification states.

    - [Scalar] is instantiated with IEEE-754 binary64 ([double]), through the
      executable specification of floating-point arithmetic of the standard
      library ([SpecFloat]); comparisons with NaN are false, as in C++.
    - Eigen vectors are lists; an Eigen assignment by index is stdpp's list
      insert.
    - The in/out reference parameters [fx], [x], [w] and [step] are an
      explicit record that is threaded through the loop; a thrown exception
      leaves the record as it was at the [throw].
    - Functions that the file calls but does not define (methods of
      [MINGROC], [clipToUnitCircle], libigl's self-intersection predicate,
      Eigen's [dot], [std::abs] on complex numbers) are the fields of one
      class, [Collaborators]; every theorem holds for all of its instances. *)

From Stdlib Require Import ZArith Bool List Lia String.
From Stdlib Require Import Floats.SpecFloat.
From stdpp Require Import base list.
Import ListNotations.

Local Open Scope Z_scope.

(** ** IEEE-754 binary64 scalars *)

Module B64.

Definition prec : Z := 53.
Definition emax : Z := 1024.

Definition Scalar : Type := spec_float.

Definition add : Scalar -> Scalar -> Scalar := SFadd prec emax.
Definition mul : Scalar -> Scalar -> Scalar := SFmul prec emax.
Definition div : Scalar -> Scalar -> Scalar := SFdiv prec emax.
Definition sqrt : Scalar -> Scalar := SFsqrt prec emax.

(** [a < b], [a <= b], [a == b] of C++: false as soon as one side is NaN. *)
Definition ltb : Scalar -> Scalar -> bool := SFltb.
Definition leb : Scalar -> Scalar -> bool := SFleb.
Definition eqb : Scalar -> Scalar -> bool := SFeqb.
(** [a > b] is [b < a]; [a != b] is [!(a == b)]. *)
Definition gtb (a b : Scalar) : bool := ltb b a.
Definition neqb (a b : Scalar) : bool := negb (eqb a b).

(** [std::isinf] *)
Definition isinf (a : Scalar) : bool :=
  match a with S754_infinity _ => true | _ => false end.

Definition isnan (a : Scalar) : bool :=
  match a with S754_nan => true | _ => false end.

(** [std::isfinite]: neither NaN nor infinite. *)
Definition isfinite (a : Scalar) : bool :=
  match a with S754_zero _ | S754_finite _ _ _ => true | _ => false end.

(** Every [double] is a valid binary64 datum: a finite one has a canonical
    mantissa and an exponent in range. *)
Definition valid (a : Scalar) : bool := valid_binary prec emax a.

(** [m * 2^e], rounded to nearest even. *)
Definition of_Z2 (m e : Z) : Scalar := binary_normalize prec emax m e false.
Definition of_Z (m : Z) : Scalar := of_Z2 m 0.

(** The literals of the source. *)
Definition zero : Scalar := S754_zero false.                        (* 0.0 *)
Definition half : Scalar := S754_finite false 4503599627370496 (-53). (* 0.5 *)
Definition one : Scalar := S754_finite false 4503599627370496 (-52).  (* 1.0 *)
Definition two_point_one : Scalar :=
  S754_finite false 4728779608739021 (-51).                          (* 2.1 *)

End B64.

Declare Scope scalar_scope.
Delimit Scope scalar_scope with sc.
Bind Scope scalar_scope with B64.Scalar.
Infix "+" := B64.add : scalar_scope.
Infix "*" := B64.mul : scalar_scope.
Infix "<?" := B64.ltb : scalar_scope.
Infix "<=?" := B64.leb : scalar_scope.
Infix ">?" := B64.gtb : scalar_scope.
Infix "!=?" := B64.neqb (at level 70) : scalar_scope.

Abbreviation Scalar := B64.Scalar.

(** ** Eigen vectors *)

(** [Vector]: a dynamic column of scalars. *)
Abbreviation Vector := (list Scalar).

(** [std::complex<Scalar>] and [CplxVector]. *)
Definition Cplx : Type := (Scalar * Scalar)%type.
Abbreviation CplxVector := (list Cplx).

Definition re (z : Cplx) : Scalar := fst z.
Definition im (z : Cplx) : Scalar := snd z.

(** [s * z] for a real [s] and a complex [z]: both parts are scaled. *)
Definition cscale (s : Scalar) (z : Cplx) : Cplx := (s * re z, s * im z)%sc.
Definition cadd (a b : Cplx) : Cplx := (re a + re b, im a + im b)%sc.

(** [xp + step * drt], coefficient by coefficient.  Eigen asserts that both
    operands have the same size; on lists the shorter one decides. *)
Fixpoint axpy (xp : Vector) (s : Scalar) (drt : Vector) : Vector :=
  match xp, drt with
  | a :: xp', d :: drt' => (a + s * d)%sc :: axpy xp' s drt'
  | _, _ => []
  end.

(** [wp + step * dw] on complex vectors. *)
Fixpoint caxpy (wp : CplxVector) (s : Scalar) (dw : CplxVector) : CplxVector :=
  match wp, dw with
  | a :: wp', d :: dw' => cadd a (cscale s d) :: caxpy wp' s dw'
  | _, _ => []
  end.

(** The rows of [w3D << w.real(), w.imag(), Vector::Zero(numV)]. *)
Definition lift3D (w : CplxVector) : list (Scalar * Scalar * Scalar) :=
  map (fun z => (re z, im z, B64.zero)) w.

(** ** Parameters, exceptions and the caller's references *)

(** [param.lineSearchTermination] is compared with three named constants;
    [LINE_SEARCH_TERMINATION_other] stands for every other value the field
    can hold. *)
Inductive LINE_SEARCH_TERMINATION_CONDITION : Type :=
| LINE_SEARCH_TERMINATION_NONE
| LINE_SEARCH_TERMINATION_DECREASE
| LINE_SEARCH_TERMINATION_ARMIJO
| LINE_SEARCH_TERMINATION_other (code : Z).

(** The fields of [MINGROCParam<Scalar>] that the line search reads. *)
Record MINGROCParam : Type := mkParam {
  ftol : Scalar;
  maxLineSearch : Z;
  minStep : Scalar;
  maxStep : Scalar;
  lineSearchTermination : LINE_SEARCH_TERMINATION_CONDITION;
  checkSelfIntersections : bool
}.

(** The data members of [MINGROC<Scalar, Index>] that the line search reads. *)
Record MINGROC : Type := mkMINGROC {
  m_F : list (nat * nat * nat);
  m_V : list (Scalar * Scalar * Scalar);
  m_bdyIDx : list nat
}.

Inductive exception : Type :=
| invalid_argument (what : string)
| logic_error (what : string)
| runtime_error (what : string).

Definition step_must_be_positive : exception :=
  invalid_argument "'step' must be positive".
Definition direction_increases : exception :=
  logic_error "The update direction increases the objective function value".
Definition max_iterations_reached : exception :=
  runtime_error "The line search routine reached the maximum number of iterations".
Definition step_too_small : exception :=
  runtime_error "The line search step became smaller than the minimum allowed value".
Definition step_too_large : exception :=
  runtime_error "The line search step became larger than the maximum allowed value".
Definition invalid_termination : exception :=
  invalid_argument "Invalid line search termination procedure".

(** The in/out reference parameters [fx], [x], [w], [step]. *)
Record refs : Type := mkRefs {
  fx : Scalar;
  x : Vector;
  w : CplxVector;
  step : Scalar
}.

(** What one loop iteration built: the candidate of iteration [t_iter], the
    step it was built with, the verdict of the feasibility test and, when the
    energy was evaluated, its value. *)
Record trial : Type := mkTrial {
  t_iter : Z;
  t_step : Scalar;
  t_x : Vector;
  t_mu : CplxVector;
  t_w : CplxVector;
  t_valid : bool;
  t_fx : option Scalar
}.

(** How a call ends. *)
Inductive result : Type :=
| Returned
| Threw (e : exception).

(** How one loop iteration ends: the next iteration, [break], or [throw]. *)
Inductive control : Type :=
| Continue
| Break
| Throw (e : exception).

(** The verdict of the termination tests on a feasible trial. *)
Inductive verdict : Type :=
| Accept
| Shrink (width : Scalar)
| Fatal (e : exception).

(** ** The collaborators of the line search

    Declared in headers that this translation unit only includes.  Each one
    is a deterministic function of its arguments; nothing more is assumed. *)
Class Collaborators : Type := {
  (** [NNIpp::NaturalNeighborInterpolant<Scalar>] *)
  NaturalNeighborInterpolant : Type;
  (** Eigen: [grad.dot(drt)] *)
  dot : Vector -> Vector -> Scalar;
  (** [std::abs] of a complex number, behind Eigen's [.array().abs()] *)
  Cabs : Cplx -> Scalar;
  (** [mingroc.convertRealToComplex(x, mu)]: fills [mu] from [x] *)
  convertRealToComplex : MINGROC -> Vector -> CplxVector;
  (** [mingroc.calculateEnergy(mu, w, NNI, calcGrowthEnergy, calcMuEnergy,
      map3D, gamma)]; [map3D] and [gamma] are locals of the line search that
      nothing reads afterwards *)
  calculateEnergy :
    MINGROC -> CplxVector -> CplxVector -> NaturalNeighborInterpolant ->
    bool -> bool -> Scalar;
  (** [MINGROCpp::clipToUnitCircle(bdyIDx, w)], in place on [w] *)
  clipToUnitCircle : list nat -> CplxVector -> CplxVector;
  (** [igl::predicates::find_self_intersections(V, F, true, IF, CP)] *)
  find_self_intersections :
    list (Scalar * Scalar * Scalar) -> list (nat * nat * nat) -> bool
}.

(** ** A small instance to run the definitions on

    Meshes without faces, an energy that is the squared norm of the
    distortion field, and the textbook formulas for the library calls. *)

Module Sample.

(** Eigen's [dot], a library call: the sum of the products, accumulated
    from the left. *)
Definition dot (a b : Vector) : Scalar :=
  fold_left (fun acc p => acc + fst p * snd p)%sc (combine a b) B64.zero.

(** A magnitude for the sample runs, [sqrt (re^2 + im^2)].  It is not the
    [hypot] behind [std::abs]: the two can differ in the last bit and where
    a square overflows.  The theorems hold for every [Cabs]; the sample
    runs stay away from magnitudes where the two differ. *)
Definition Cabs (z : Cplx) : Scalar :=
  B64.sqrt (re z * re z + im z * im z)%sc.

(** Modelled from the spec: [convertRealToComplex] is missing; a pure map
    from the real unknown to the complex distortion field, here the
    inclusion of the reals. *)
Definition convertRealToComplex (_ : MINGROC) (x : Vector) : CplxVector :=
  map (fun a => (a, B64.zero)) x.

(** Modelled from the spec: [calculateEnergy] is missing; an energy value
    computed from the distortion field, here its squared norm. *)
Definition calculateEnergy (_ : MINGROC) (mu _ : CplxVector) (_ : unit)
    (_ _ : bool) : Scalar :=
  fold_left (fun acc z => acc + (re z * re z + im z * im z))%sc mu B64.zero.

(** Modelled from the spec: [clipToUnitCircle] is missing; the in-place
    projection of the boundary entries onto the unit circle, [z / |z|]. *)
Definition clip_one (w : CplxVector) (i : nat) : CplxVector :=
  match w !! i with
  | Some z => <[i := (B64.div (re z) (Cabs z), B64.div (im z) (Cabs z))]> w
  | None => w
  end.

Definition clipToUnitCircle (bdyIDx : list nat) (w : CplxVector) : CplxVector :=
  fold_left clip_one bdyIDx w.

(** libigl's predicate, a library call: the sample meshes have no faces, so
    no pair of faces intersects. *)
Definition find_self_intersections
    (_ : list (Scalar * Scalar * Scalar)) (_ : list (nat * nat * nat)) : bool :=
  false.

Definition collaborators : Collaborators :=
  Build_Collaborators unit dot Cabs convertRealToComplex calculateEnergy
    clipToUnitCircle find_self_intersections.

(** One vertex, on no boundary. *)
Definition mesh : MINGROC := mkMINGROC [] [(B64.zero, B64.zero, B64.zero)] [].

(** One vertex, on the boundary. *)
Definition disk : MINGROC :=
  mkMINGROC [] [(B64.zero, B64.zero, B64.zero)] [0%nat].

Definition params (budget : Z) (lo hi : Scalar)
    (mode : LINE_SEARCH_TERMINATION_CONDITION) : MINGROCParam :=
  mkParam (B64.of_Z2 1 (-1)) budget lo hi mode false.

(** [x = 0.5], energy [0.25], embedding at the origin. *)
Definition start (s : Scalar) : refs :=
  mkRefs (B64.of_Z2 1 (-2)) [B64.of_Z2 1 (-1)] [(B64.zero, B64.zero)] s.

End Sample.

(** ** LineSearchBacktracking::LineSearch *)

Section LineSearch.

Context {C : Collaborators}.

Variable mingroc : MINGROC.
Variable param : MINGROCParam.
Variable NNI : NaturalNeighborInterpolant.
Variable fixIDx : list nat.
Variable drt : Vector.
Variable dw : CplxVector.
Variable grad : Vector.
Variables calcGrowthEnergy calcMuEnergy : bool.

(** Decreasing and increasing factors *)
Definition dec : Scalar := B64.half.
Definition inc : Scalar := B64.two_point_one.

(** Pin fixed points: [for i: w(fixIDx(i)) = wp(fixIDx(i))].  An index
    outside the vectors is undefined behaviour in Eigen (an assertion
    failure in debug builds); here it leaves the vector as it is. *)
Definition pin_one (wp : CplxVector) (w : CplxVector) (i : nat) : CplxVector :=
  match wp !! i with
  | Some z => <[i := z]> w
  | None => w
  end.

Definition pin (wp w : CplxVector) : CplxVector :=
  fold_left (pin_one wp) fixIDx w.

(** Evaluate the current candidate: [x], [mu] and [w] after lines 92-105. *)
Definition candidate_x (xp : Vector) (s : Scalar) : Vector := axpy xp s drt.

Definition candidate_w (wp : CplxVector) (s : Scalar) : CplxVector :=
  pin wp (clipToUnitCircle (m_bdyIDx mingroc) (caxpy wp s dw)).

(** [(mu.array().abs() < 1.0).all()] and [(w.array().abs() <= 1.0).all()] *)
Definition all_abs_lt_one (mu : CplxVector) : bool :=
  forallb (fun z => Cabs z <? B64.one)%sc mu.

Definition all_abs_le_one (w : CplxVector) : bool :=
  forallb (fun z => Cabs z <=? B64.one)%sc w.

(** The value of [validStep] when line 128 reads it. *)
Definition validStep (mu w : CplxVector) : bool :=
  let validStep := all_abs_lt_one mu && all_abs_le_one w in
  if checkSelfIntersections param then
    let intersects := find_self_intersections (lift3D w) (m_F mingroc) in
    validStep && negb intersects
  else validStep.

Definition termination_eqb (a b : LINE_SEARCH_TERMINATION_CONDITION) : bool :=
  match a, b with
  | LINE_SEARCH_TERMINATION_NONE, LINE_SEARCH_TERMINATION_NONE => true
  | LINE_SEARCH_TERMINATION_DECREASE, LINE_SEARCH_TERMINATION_DECREASE => true
  | LINE_SEARCH_TERMINATION_ARMIJO, LINE_SEARCH_TERMINATION_ARMIJO => true
  | LINE_SEARCH_TERMINATION_other a, LINE_SEARCH_TERMINATION_other b => a =? b
  | _, _ => false
  end.

(** Evaluate line search termination conditions: the [if]/[else if] chain
    of lines 160-196.  [Shrink width] falls through to the checks below
    the chain, [Accept] is [break]. *)
Definition termination (fx fx_init step test_decr : Scalar) : verdict :=
  if (fx !=? fx)%sc || B64.isinf fx then
    Shrink dec
  else if termination_eqb (lineSearchTermination param)
                          LINE_SEARCH_TERMINATION_NONE then
    Accept
  else if (fx >? fx_init)%sc then
    Shrink dec
  else if termination_eqb (lineSearchTermination param)
                          LINE_SEARCH_TERMINATION_DECREASE then
    Accept
  else if (fx >? fx_init + step * test_decr)%sc then
    Shrink dec
  else if termination_eqb (lineSearchTermination param)
                          LINE_SEARCH_TERMINATION_ARMIJO then
    Accept
  else
    Fatal invalid_termination.

(** The three checks and [step *= width] that follow a rejection.  The
    source has this block twice, with the same text: lines 132-148 for an
    infeasible candidate and lines 198-213 after the termination tests. *)
Definition shrink (iter : Z) (step width : Scalar) : exception + Scalar :=
  if iter >=? maxLineSearch param then inl max_iterations_reached
  else if (step <? minStep param)%sc then inl step_too_small
  else if (step >? maxStep param)%sc then inl step_too_large
  else inr (step * width)%sc.

(** One pass through the body of the [for] loop. *)
Definition iteration (xp : Vector) (wp : CplxVector)
    (fx_init test_decr : Scalar) (iter : Z) (r : refs)
  : control * refs * trial :=
  let x' := candidate_x xp (step r) in
  let mu := convertRealToComplex mingroc x' in
  let w' := candidate_w wp (step r) in
  let valid := validStep mu w' in
  if negb valid then
    let r' := mkRefs (fx r) x' w' (step r) in
    let t := mkTrial iter (step r) x' mu w' valid None in
    let width := dec in
    match shrink iter (step r) width with
    | inl e => (Throw e, r', t)
    | inr s => (Continue, mkRefs (fx r) x' w' s, t)
    end
  else
    let fx' :=
      calculateEnergy mingroc mu w' NNI calcGrowthEnergy calcMuEnergy in
    let r' := mkRefs fx' x' w' (step r) in
    let t := mkTrial iter (step r) x' mu w' valid (Some fx') in
    match termination fx' fx_init (step r) test_decr with
    | Accept => (Break, r', t)
    | Fatal e => (Throw e, r', t)
    | Shrink width =>
        match shrink iter (step r) width with
        | inl e => (Throw e, r', t)
        | inr s => (Continue, mkRefs fx' x' w' s, t)
        end
    end.

(** [for (int iter = 0; iter <= param.maxLineSearch; iter++)]: [n] is the
    number of values of [iter] that are left, [Z.to_nat (maxLineSearch -
    iter + 1)].  The trials come out in the order they were built. *)
Fixpoint loop (xp : Vector) (wp : CplxVector) (fx_init test_decr : Scalar)
    (n : nat) (iter : Z) (r : refs) : result * refs * list trial :=
  match n with
  | O => (Returned, r, [])
  | S n' =>
      let '(c, r', t) := iteration xp wp fx_init test_decr iter r in
      match c with
      | Break => (Returned, r', [t])
      | Throw e => (Threw e, r', [t])
      | Continue =>
          let '(res, r'', ts) :=
            loop xp wp fx_init test_decr n' (iter + 1) r' in
          (res, r'', t :: ts)
      end
  end.

(** The projection of the gradient onto the search direction. *)
Definition dg_init_of : Scalar := dot grad drt.

(** The whole call: how it ends, the references as the caller finds them,
    and the trials it built. *)
Definition LineSearch (r : refs) : result * refs * list trial :=
  (* Check the initial step length: the exception object is constructed
     and dropped, there is no [throw] in front of it. *)
  let _ :=
    if (step r <? B64.zero)%sc then Some step_must_be_positive else None in
  (* Make a copy of the system's current state *)
  let xp := x r in
  let wp := w r in
  let fx_init := fx r in
  let dg_init := dg_init_of in
  (* Make sure the search direction is a descent direction *)
  if (dg_init >? B64.zero)%sc then (Threw direction_increases, r, [])
  else
    let test_decr := (ftol param * dg_init)%sc in
    loop xp wp fx_init test_decr
      (Z.to_nat (maxLineSearch param + 1)) 0 r.

(** *** The shape of a call

    The same loop, read as a relation between the state at the head of an
    iteration and the end of the call; the proofs go by induction on it. *)

(** The trial that iteration [iter] builds with step [s]. *)
Definition built (xp : Vector) (wp : CplxVector) (iter : Z) (s : Scalar)
  : trial :=
  let x' := candidate_x xp s in
  let mu := convertRealToComplex mingroc x' in
  let w' := candidate_w wp s in
  let valid := validStep mu w' in
  mkTrial iter s x' mu w' valid
    (if valid
     then Some (calculateEnergy mingroc mu w' NNI calcGrowthEnergy calcMuEnergy)
     else None).

(** The references once trial [t] has been built from [r]. *)
Definition after (r : refs) (t : trial) : refs :=
  mkRefs (match t_fx t with Some f => f | None => fx r end)
         (t_x t) (t_w t) (step r).

Definition with_step (r : refs) (s : Scalar) : refs :=
  mkRefs (fx r) (x r) (w r) s.

(** What the loop decides about a trial: an infeasible one is shrunk, a
    feasible one goes through the termination tests. *)
Definition trial_verdict (fx_init test_decr : Scalar) (t : trial) : verdict :=
  match t_fx t with
  | Some f => termination f fx_init (t_step t) test_decr
  | None => Shrink dec
  end.

Definition rejected (fx_init test_decr : Scalar) (t : trial) : Prop :=
  exists width, trial_verdict fx_init test_decr t = Shrink width.

Inductive run (xp : Vector) (wp : CplxVector) (fx_init test_decr : Scalar)
  : Z -> refs -> result -> refs -> list trial -> Prop :=
| run_exit iter r :
    maxLineSearch param < iter ->
    run xp wp fx_init test_decr iter r Returned r []
| run_accept iter r t :
    iter <= maxLineSearch param ->
    t = built xp wp iter (step r) ->
    trial_verdict fx_init test_decr t = Accept ->
    run xp wp fx_init test_decr iter r Returned (after r t) [t]
| run_fatal iter r t e :
    iter <= maxLineSearch param ->
    t = built xp wp iter (step r) ->
    trial_verdict fx_init test_decr t = Fatal e ->
    run xp wp fx_init test_decr iter r (Threw e) (after r t) [t]
| run_fail iter r t width e :
    iter <= maxLineSearch param ->
    t = built xp wp iter (step r) ->
    trial_verdict fx_init test_decr t = Shrink width ->
    shrink iter (step r) width = inl e ->
    run xp wp fx_init test_decr iter r (Threw e) (after r t) [t]
| run_retry iter r t width s res r' ts :
    iter <= maxLineSearch param ->
    t = built xp wp iter (step r) ->
    trial_verdict fx_init test_decr t = Shrink width ->
    shrink iter (step r) width = inr s ->
    run xp wp fx_init test_decr (iter + 1) (with_step (after r t) s) res r' ts ->
    run xp wp fx_init test_decr iter r res r' (t :: ts).

(** *** The specification's wording, to compare with the code *)

(** The decision table of the termination policy: the rows in the order
    of the specification, each a condition and what it decides. *)
Definition decision_table (mode : LINE_SEARCH_TERMINATION_CONDITION)
    (fx fx_init dg_init step ftol : Scalar) : list (bool * verdict) :=
  [ (B64.isnan fx || B64.isinf fx, Shrink B64.half);
    (termination_eqb mode LINE_SEARCH_TERMINATION_NONE, Accept);
    ((fx >? fx_init)%sc, Shrink B64.half);
    (termination_eqb mode LINE_SEARCH_TERMINATION_DECREASE, Accept);
    ((fx >? fx_init + step * (ftol * dg_init))%sc, Shrink B64.half);
    (termination_eqb mode LINE_SEARCH_TERMINATION_ARMIJO, Accept);
    (true, Fatal invalid_termination) ].

(** First match wins. *)
Fixpoint first_match (rows : list (bool * verdict)) : option verdict :=
  match rows with
  | [] => None
  | (true, v) :: _ => Some v
  | (false, _) :: rows' => first_match rows'
  end.

(** The three rules of the feasibility checker. *)
Definition feasible (mu w : CplxVector) : Prop :=
  (forall z, In z mu -> (Cabs z <? B64.one)%sc = true) /\
  (forall z, In z w -> (Cabs z <=? B64.one)%sc = true) /\
  (checkSelfIntersections param = true ->
   find_self_intersections (lift3D w) (m_F mingroc) = false).

(** The energy that [fx] holds after the trials [ts]: that of the last
    trial whose energy was evaluated, or [fx0] when there is none. *)
Definition last_energy (fx0 : Scalar) (ts : list trial) : Scalar :=
  fold_left (fun acc t => match t_fx t with Some f => f | None => acc end)
            ts fx0.

(** [n] halvings of [s]. *)
Fixpoint halved (n : nat) (s : Scalar) : Scalar :=
  match n with
  | O => s
  | S n' => halved n' (s * B64.half)%sc
  end.

(** The parameters with another iteration budget, and with another
    termination mode. *)
Definition with_maxLineSearch (p : MINGROCParam) (budget : Z) : MINGROCParam :=
  mkParam (ftol p) budget (minStep p) (maxStep p) (lineSearchTermination p)
    (checkSelfIntersections p).

Definition with_termination (p : MINGROCParam)
    (mode : LINE_SEARCH_TERMINATION_CONDITION) : MINGROCParam :=
  mkParam (ftol p) (maxLineSearch p) (minStep p) (maxStep p) mode
    (checkSelfIntersections p).

(** The order of the three named modes by the tests a trial has to pass:
    NONE before DECREASE before ARMIJO. *)
Definition fewer_tests (weak strong : LINE_SEARCH_TERMINATION_CONDITION) : bool :=
  match weak, strong with
  | LINE_SEARCH_TERMINATION_NONE,
    (LINE_SEARCH_TERMINATION_NONE | LINE_SEARCH_TERMINATION_DECREASE
     | LINE_SEARCH_TERMINATION_ARMIJO) => true
  | LINE_SEARCH_TERMINATION_DECREASE,
    (LINE_SEARCH_TERMINATION_DECREASE | LINE_SEARCH_TERMINATION_ARMIJO) => true
  | LINE_SEARCH_TERMINATION_ARMIJO, LINE_SEARCH_TERMINATION_ARMIJO => true
  | _, _ => false
  end.

(** Halving in the lowest binade: the mantissa is halved and rounded to
    even, the exponent stays. *)
Definition half_mantissa (m : positive) : Z :=
  match m with
  | xH => 0
  | xO p => Zpos p
  | xI p => if Z.even (Zpos p) then Zpos p else Zpos p + 1
  end.

Definition of_mantissa (m : Z) (e : Z) : Scalar :=
  match m with
  | Z0 => S754_zero false
  | Zpos p => S754_finite false p e
  | Zneg _ => S754_nan
  end.

(** ** Lemmas on binary64 *)

Lemma b64_neqb_self (a : Scalar) : (a !=? a)%sc = B64.isnan a.
Proof.
  unfold B64.neqb, B64.eqb, SFeqb, SFcompare.
  destruct a as [s|s| |s m e]; try (destruct s; reflexivity); try reflexivity.
  rewrite Z.compare_refl, Pos.compare_cont_refl. destruct s; reflexivity.
Qed.

Lemma b64_compare_antisym (a b : Scalar) :
  SFcompare b a =
  match SFcompare a b with Some c => Some (CompOpp c) | None => None end.
Proof.
  destruct a as [sa|sa| |sa ma ea], b as [sb|sb| |sb mb eb]; cbn;
    try reflexivity;
    try (destruct sa; reflexivity); try (destruct sb; reflexivity);
    try (destruct sa, sb; reflexivity).
  rewrite (Z.compare_antisym ea eb).
  change (Pos.compare_cont Eq mb ma)
    with (Pos.compare_cont (CompOpp Eq) mb ma).
  rewrite <- (Pos.compare_cont_antisym ma mb Eq).
  destruct sa, sb; try reflexivity;
    destruct (ea ?= eb); cbn; try reflexivity;
    destruct (Pos.compare_cont Eq ma mb); reflexivity.
Qed.

(** For numbers, [!(a > b)] is [a <= b]. *)
Lemma b64_leb_of_not_gtb (a b : Scalar) :
  B64.isnan a = false -> B64.isnan b = false ->
  (a >? b)%sc = false -> (a <=? b)%sc = true.
Proof.
  intros Ha Hb. unfold B64.gtb, B64.ltb, B64.leb, SFltb, SFleb.
  rewrite (b64_compare_antisym a b).
  destruct (SFcompare a b) as [[]|] eqn:E; cbn; try congruence.
  destruct a, b; try discriminate; cbn in E; try discriminate E;
    repeat match type of E with
           | context [if ?s then _ else _] => destruct s
           end; discriminate E.
Qed.

Lemma b64_bounded m e :
  bounded B64.prec B64.emax m e = true ->
  e <= 971 /\
  ((Zpos (digits2_pos m) = 53 /\ -1074 <= e) \/
   (e = -1074 /\ Zpos (digits2_pos m) <= 53)).
Proof.
  unfold bounded, canonical_mantissa, fexp, emin, B64.prec, B64.emax.
  intros H. apply andb_prop in H as [H1 H2].
  apply Z.eqb_eq in H1. apply Z.leb_le in H2. lia.
Qed.

Lemma b64_bounded_intro m e :
  e <= 971 ->
  (Zpos (digits2_pos m) = 53 /\ -1074 <= e) \/
  (e = -1074 /\ Zpos (digits2_pos m) <= 53) ->
  bounded B64.prec B64.emax m e = true.
Proof.
  unfold bounded, canonical_mantissa, fexp, emin, B64.prec, B64.emax.
  intros He H.
  apply andb_true_intro; split; [apply Z.eqb_eq|apply Z.leb_le]; lia.
Qed.

(** The product with the mantissa [2^52] of 0.5 is a shift by 52 bits. *)
Lemma shr_52 m :
  SpecFloat.iter_pos shr_1 52
    (Build_shr_record (Zpos (m * 4503599627370496)) false false)
  = Build_shr_record (Zpos m) false false.
Proof. rewrite Pos.mul_comm. reflexivity. Qed.

Lemma shr_53 m :
  SpecFloat.iter_pos shr_1 53
    (Build_shr_record (Zpos (m * 4503599627370496)) false false)
  = shr_1 (Build_shr_record (Zpos m) false false).
Proof. rewrite Pos.mul_comm. reflexivity. Qed.

Lemma digits_shift_52 m :
  Zpos (digits2_pos (m * 4503599627370496)) = Zpos (digits2_pos m) + 52.
Proof.
  rewrite Pos.mul_comm. cbv beta iota fix delta [Pos.mul].
  cbn [digits2_pos]. lia.
Qed.

Lemma digits_succ p :
  Zpos (digits2_pos (Pos.succ p)) <= Zpos (digits2_pos p) + 1.
Proof.
  induction p as [q IH|q IH|].
  - change (Pos.succ q~1) with (Pos.succ q)~0%positive.
    cbn [digits2_pos]. lia.
  - change (Pos.succ q~0) with q~1%positive. cbn [digits2_pos]. lia.
  - change (Pos.succ 1) with 2%positive. cbn [digits2_pos]. lia.
Qed.

Lemma half_mantissa_bounds m :
  0 <= half_mantissa m < Zpos m /\
  Zdigits2 (half_mantissa m) <= Zpos (digits2_pos m).
Proof.
  destruct m as [p|p|]; cbn [half_mantissa].
  - destruct (Z.even (Zpos p)) eqn:E.
    + cbn. lia.
    + split; [lia|].
      replace (Zpos p + 1) with (Zpos (Pos.succ p)) by lia.
      pose proof (digits_succ p). cbn [Zdigits2 digits2_pos]. lia.
  - cbn. lia.
  - cbn. lia.
Qed.

(** Above the lowest binade halving is exact: the exponent drops by one. *)
Lemma b64_half_normal m e :
  Zpos (digits2_pos m) = 53 -> -1074 < e -> e <= 971 ->
  (S754_finite false m e * B64.half)%sc = S754_finite false m (e - 1).
Proof.
  intros Hd He He'.
  unfold B64.mul, B64.half, SFmul, binary_round_aux. cbn [xorb].
  unfold shr_fexp at 1. cbn [Zdigits2 shr_record_of_loc].
  rewrite digits_shift_52.
  replace (fexp B64.prec B64.emax
             (Zpos (digits2_pos m) + 52 + (e + -53)) - (e + -53))
    with 52 by (unfold fexp, emin, B64.prec, B64.emax; lia).
  cbn [shr]. rewrite shr_52.
  cbn [shr_m loc_of_shr_record round_nearest_even].
  unfold shr_fexp. cbn [Zdigits2 shr_record_of_loc].
  replace (fexp B64.prec B64.emax
             (Zpos (digits2_pos m) + (e + -53 + 52)) - (e + -53 + 52))
    with 0 by (unfold fexp, emin, B64.prec, B64.emax; lia).
  cbn [shr shr_m].
  replace (e + -53 + 52 <=? B64.emax - B64.prec) with true
    by (symmetry; apply Z.leb_le; unfold B64.prec, B64.emax; lia).
  f_equal. lia.
Qed.

(** In the lowest binade one bit is lost and the result is rounded. *)
Lemma b64_half_low m :
  Zpos (digits2_pos m) <= 53 ->
  (S754_finite false m (-1074) * B64.half)%sc
  = of_mantissa (half_mantissa m) (-1074).
Proof.
  intros Hd.
  unfold B64.mul, B64.half, SFmul, binary_round_aux. cbn [xorb].
  unfold shr_fexp at 1. cbn [Zdigits2 shr_record_of_loc].
  rewrite digits_shift_52.
  replace (fexp B64.prec B64.emax
             (Zpos (digits2_pos m) + 52 + (-1074 + -53)) - (-1074 + -53))
    with 53 by (unfold fexp, emin, B64.prec, B64.emax; lia).
  cbn [shr]. rewrite shr_53.
  pose proof (half_mantissa_bounds m) as [Hb Hdig].
  assert (Hr : round_nearest_even
                 (shr_m (shr_1 (Build_shr_record (Zpos m) false false)))
                 (loc_of_shr_record
                    (shr_1 (Build_shr_record (Zpos m) false false)))
               = half_mantissa m) by (destruct m; reflexivity).
  rewrite Hr. clear Hr.
  unfold shr_fexp.
  replace (fexp B64.prec B64.emax
             (Zdigits2 (half_mantissa m) + (-1074 + -53 + 53))
           - (-1074 + -53 + 53))
    with 0 by (unfold fexp, emin, B64.prec, B64.emax; lia).
  cbn [shr shr_record_of_loc shr_m].
  destruct (half_mantissa m); reflexivity.
Qed.

Lemma b64_leb_low p m :
  Zpos p < Zpos m ->
  (S754_finite false p (-1074) <=? S754_finite false m (-1074))%sc = true.
Proof.
  intros Hlt. unfold B64.leb, SFleb, SFcompare.
  rewrite Z.compare_refl, Pos.compare_cont_spec.
  rewrite (proj2 (Pos.compare_lt_iff p m)) by lia. reflexivity.
Qed.

(** Half of a non-negative double is a non-negative double that is not
    larger. *)
Lemma b64_half_le (a : Scalar) :
  B64.valid a = true -> (B64.zero <=? a)%sc = true ->
  (a * B64.half <=? a)%sc = true /\
  B64.valid (a * B64.half)%sc = true /\
  (B64.zero <=? a * B64.half)%sc = true.
Proof.
  intros Hv Ha.
  destruct a as [s|s| |s m e]; try discriminate Ha.
  - destruct s; repeat split.
  - destruct s; [discriminate Ha|]. repeat split.
  - destruct s; [discriminate Ha|].
    cbn [B64.valid valid_binary] in Hv.
    apply b64_bounded in Hv as [He Hcases].
    destruct (Z.eq_dec e (-1074)) as [->|Hne].
    + rewrite b64_half_low by lia.
      pose proof (half_mantissa_bounds m) as [Hb Hdig].
      destruct (half_mantissa m) as [|p|p] eqn:Hm; cbn [of_mantissa];
        [repeat split| |lia].
      repeat split.
      * apply b64_leb_low. lia.
      * cbn [Zdigits2] in Hdig. apply b64_bounded_intro; lia.
    + rewrite b64_half_normal by lia. repeat split.
      * unfold B64.leb, SFleb, SFcompare.
        rewrite (proj2 (Z.compare_lt_iff (e - 1) e)) by lia. reflexivity.
      * apply b64_bounded_intro; lia.
Qed.

Lemma b64_half_finite (a : Scalar) :
  B64.valid a = true -> (B64.zero <=? a)%sc = true ->
  B64.isfinite a = true -> B64.isfinite (a * B64.half)%sc = true.
Proof.
  intros Hv Ha Hf.
  destruct a as [s|s| |s m e]; try discriminate Hf.
  - reflexivity.
  - destruct s; [discriminate Ha|].
    cbn [B64.valid valid_binary] in Hv.
    apply b64_bounded in Hv as [He Hcases].
    destruct (Z.eq_dec e (-1074)) as [->|Hne].
    + rewrite b64_half_low by lia.
      pose proof (half_mantissa_bounds m) as [Hb _].
      destruct (half_mantissa m); [reflexivity|reflexivity|lia].
    + rewrite b64_half_normal by lia. reflexivity.
Qed.

(** Rounding a non-negative mantissa never yields NaN. *)
Lemma shr_1_nonneg mrs : 0 <= shr_m mrs -> 0 <= shr_m (shr_1 mrs).
Proof.
  destruct mrs as [m r s]. cbn [shr_m]. intros Hm.
  destruct m as [|[p|p|]|p]; cbn; lia.
Qed.

Lemma iter_shr_1_nonneg p : forall mrs,
  0 <= shr_m mrs -> 0 <= shr_m (SpecFloat.iter_pos shr_1 p mrs).
Proof.
  induction p as [p IH|p IH|]; intros mrs Hm; cbn [SpecFloat.iter_pos].
  - apply IH, IH, shr_1_nonneg, Hm.
  - apply IH, IH, Hm.
  - apply shr_1_nonneg, Hm.
Qed.

Lemma shr_fexp_nonneg m e l :
  0 <= m -> 0 <= shr_m (fst (shr_fexp B64.prec B64.emax m e l)).
Proof.
  intros Hm. unfold shr_fexp, shr.
  assert (H0 : 0 <= shr_m (shr_record_of_loc m l))
    by (destruct l as [|[]]; exact Hm).
  destruct (fexp B64.prec B64.emax (Zdigits2 m + e) - e); cbn [fst];
    try exact H0.
  apply iter_shr_1_nonneg, H0.
Qed.

Lemma round_nearest_even_nonneg m l : 0 <= m -> 0 <= round_nearest_even m l.
Proof.
  intros Hm. destruct l as [|[]]; cbn; try lia.
  destruct (Z.even m); lia.
Qed.

Lemma binary_round_aux_not_nan sx mx ex lx :
  0 <= mx -> binary_round_aux B64.prec B64.emax sx mx ex lx <> S754_nan.
Proof.
  intros Hm. unfold binary_round_aux.
  pose proof (shr_fexp_nonneg mx ex lx Hm) as H1.
  destruct (shr_fexp B64.prec B64.emax mx ex lx) as [mrs' e'] eqn:E1.
  cbn [fst] in H1.
  pose proof (shr_fexp_nonneg
                (round_nearest_even (shr_m mrs') (loc_of_shr_record mrs'))
                e' loc_Exact (round_nearest_even_nonneg _ _ H1)) as H2.
  destruct (shr_fexp B64.prec B64.emax _ e' loc_Exact) as [mrs'' e''] eqn:E2.
  cbn [fst] in H2.
  destruct (shr_m mrs'') as [|p|p]; [discriminate| |lia].
  destruct (e'' <=? B64.emax - B64.prec); discriminate.
Qed.

(** The product of two finite doubles is a number. *)
Lemma b64_mul_number (a b : Scalar) :
  B64.isfinite a = true -> B64.isfinite b = true ->
  B64.isnan (a * b)%sc = false.
Proof.
  destruct a as [sa|sa| |sa ma ea], b as [sb|sb| |sb mb eb]; try discriminate;
    intros _ _; try reflexivity.
  unfold B64.mul. cbn [SFmul].
  pose proof (binary_round_aux_not_nan (xorb sa sb) (Zpos (ma * mb))
                (ea + eb) loc_Exact ltac:(lia)) as H.
  destruct (binary_round_aux _ _ _ _ _ _); try reflexivity. congruence.
Qed.

(** The sum of a finite double and a number is a number. *)
Lemma b64_add_number (a b : Scalar) :
  B64.isfinite a = true -> B64.isnan b = false ->
  B64.isnan (a + b)%sc = false.
Proof.
  destruct a as [sa|sa| |sa ma ea], b as [sb|sb| |sb mb eb]; try discriminate;
    intros _ _; try reflexivity.
  - destruct sa, sb; reflexivity.
  - unfold B64.add. cbn [SFadd]. unfold binary_normalize.
    destruct (_ + _) as [|p|p]; [reflexivity| |];
      unfold binary_round;
      destruct (shl_align _ _ _) as [mz ez];
      match goal with
      | |- B64.isnan (binary_round_aux _ _ ?s ?m ?e ?l) = false =>
          pose proof (binary_round_aux_not_nan s m e l ltac:(lia)) as H;
          destruct (binary_round_aux _ _ s m e l); try reflexivity; congruence
      end.
Qed.

(** ** Lemmas on one iteration and on the loop *)

Lemma iteration_unfold xp wp fx_init test_decr iter r :
  iteration xp wp fx_init test_decr iter r =
  let t := built xp wp iter (step r) in
  match trial_verdict fx_init test_decr t with
  | Accept => (Break, after r t, t)
  | Fatal e => (Throw e, after r t, t)
  | Shrink width =>
      match shrink iter (step r) width with
      | inl e => (Throw e, after r t, t)
      | inr s => (Continue, with_step (after r t) s, t)
      end
  end.
Proof.
  unfold iteration, built, trial_verdict, after, with_step; cbn.
  destruct (validStep _ _); cbn.
  - destruct (termination _ _ _ _); reflexivity.
  - destruct (shrink _ _ _); reflexivity.
Qed.

Lemma shrink_inr iter s width s' :
  shrink iter s width = inr s' ->
  iter < maxLineSearch param /\
  (s <? minStep param)%sc = false /\
  (s >? maxStep param)%sc = false /\
  s' = (s * width)%sc.
Proof.
  unfold shrink.
  destruct (iter >=? maxLineSearch param) eqn:Hi; [discriminate|].
  destruct (s <? minStep param)%sc; [discriminate|].
  destruct (s >? maxStep param)%sc; [discriminate|].
  intros [= <-]. repeat split. lia.
Qed.

Lemma loop_run xp wp fx_init test_decr n : forall iter r res r' tr,
  Z.of_nat n = Z.max 0 (maxLineSearch param + 1 - iter) ->
  loop xp wp fx_init test_decr n iter r = (res, r', tr) ->
  run xp wp fx_init test_decr iter r res r' tr.
Proof.
  induction n as [|n IH]; intros iter r res r' tr Hn.
  - cbn. intros [= <- <- <-]. apply run_exit. lia.
  - cbn [loop]. rewrite iteration_unfold. cbv zeta.
    destruct (trial_verdict _ _ _) as [|width|e] eqn:Hv.
    + intros [= <- <- <-]. apply run_accept; [lia|reflexivity|exact Hv].
    + destruct (shrink _ _ _) as [e|s] eqn:Hs.
      * intros [= <- <- <-]. eapply run_fail; eauto. lia.
      * destruct (loop _ _ _ _ n _ _) as [[res0 r0] ts] eqn:Hl.
        intros [= <- <- <-].
        apply shrink_inr in Hs as Hs'. destruct Hs' as (Hlt & _).
        eapply run_retry; eauto; [lia|].
        apply IH; [lia|exact Hl].
    + intros [= <- <- <-]. eapply run_fatal; eauto. lia.
Qed.

Lemma verdict_width fx_init test_decr t width :
  trial_verdict fx_init test_decr t = Shrink width -> width = B64.half.
Proof.
  unfold trial_verdict, termination, dec.
  destruct (t_fx t); [|congruence].
  repeat match goal with
         | |- context [if ?b then _ else _] => destruct b
         end; congruence.
Qed.

Lemma halved_succ n s : halved (S n) s = halved n (s * B64.half)%sc.
Proof. reflexivity. Qed.

Section Runs.

Variables (xp : Vector) (wp : CplxVector) (fx_init test_decr : Scalar).

Local Abbreviation run' := (run xp wp fx_init test_decr).
Local Abbreviation verdict' := (trial_verdict fx_init test_decr).

(** The [k]-th trial is the candidate of iteration [iter + k], built
    with the step halved [k] times. *)
Lemma run_nth iter r res r' tr :
  run' iter r res r' tr ->
  forall (k : nat) t, tr !! k = Some t ->
    t = built xp wp (iter + Z.of_nat k) (halved k (step r)).
Proof.
  induction 1 as [iter r Hi|iter r t Hi Ht Hv|iter r t e Hi Ht Hv
                 |iter r t width e Hi Ht Hv Hs
                 |iter r t width s res r' ts Hi Ht Hv Hs Hrun IH];
    intros k t0 Hk.
  - destruct k; discriminate.
  - destruct k as [|[|k]]; [|discriminate..].
    injection Hk as <-. rewrite Z.add_0_r. exact Ht.
  - destruct k as [|[|k]]; [|discriminate..].
    injection Hk as <-. rewrite Z.add_0_r. exact Ht.
  - destruct k as [|[|k]]; [|discriminate..].
    injection Hk as <-. rewrite Z.add_0_r. exact Ht.
  - destruct k as [|k].
    + injection Hk as <-. rewrite Z.add_0_r. exact Ht.
    + cbn in Hk. apply IH in Hk. cbn [step with_step] in Hk.
      apply shrink_inr in Hs as (_ & _ & _ & ->).
      apply verdict_width in Hv as ->.
      rewrite halved_succ.
      replace (iter + Z.of_nat (S k)) with (iter + 1 + Z.of_nat k) by lia.
      exact Hk.
Qed.

(** A trial that is followed by another one was rejected, within the
    budget, with a step that passed both bound checks; the next step is
    its half. *)
Lemma run_consecutive iter r res r' tr :
  run' iter r res r' tr ->
  forall (k : nat) t t', tr !! k = Some t -> tr !! S k = Some t' ->
    rejected fx_init test_decr t /\
    t_iter t < maxLineSearch param /\
    (t_step t <? minStep param)%sc = false /\
    (t_step t >? maxStep param)%sc = false /\
    t_step t' = (t_step t * B64.half)%sc.
Proof.
  induction 1 as [iter r Hi|iter r t Hi Ht Hv|iter r t e Hi Ht Hv
                 |iter r t width e Hi Ht Hv Hs
                 |iter r t width s res r' ts Hi Ht Hv Hs Hrun IH];
    intros k t0 t1 Hk Hk1; try (destruct k; discriminate).
  destruct k as [|k].
  - injection Hk as <-. cbn in Hk1.
    eapply run_nth in Hk1; [|exact Hrun].
    cbn in Hk1. subst t1.
    apply shrink_inr in Hs as (Hlt & Hmin & Hmax & ->).
    assert (width = B64.half) as -> by (eapply verdict_width; eauto).
    subst t. cbn. repeat split; try assumption.
    eexists. exact Hv.
  - cbn in Hk, Hk1. eapply IH; eauto.
Qed.

(** How a call that built at least one trial ends: the references hold
    the last trial, and the result is what the loop decided about it. *)
Lemma run_end iter r res r' tr :
  run' iter r res r' tr ->
  forall t, last tr = Some t ->
    x r' = t_x t /\ w r' = t_w t /\ step r' = t_step t /\
    t_iter t <= maxLineSearch param /\
    match res with
    | Returned => verdict' t = Accept
    | Threw e =>
        verdict' t = Fatal e \/
        exists width, verdict' t = Shrink width /\
                      shrink (t_iter t) (t_step t) width = inl e
    end.
Proof.
  induction 1 as [iter r Hi|iter r t Hi Ht Hv|iter r t e Hi Ht Hv
                 |iter r t width e Hi Ht Hv Hs
                 |iter r t width s res r' ts Hi Ht Hv Hs Hrun IH];
    intros t0 Hl.
  - discriminate.
  - injection Hl as <-. subst t. cbn. repeat split; try assumption.
  - injection Hl as <-. cbn. subst t. cbn.
    repeat split; try assumption. now left.
  - injection Hl as <-. cbn. subst t. cbn.
    repeat split; try assumption. right. exists width. split; assumption.
  - destruct ts as [|t1 ts].
    + inversion Hrun; subst.
      apply shrink_inr in Hs as (Hlt & _). lia.
    + rewrite last_cons_cons in Hl. apply IH. exact Hl.
Qed.

(** A call that built no trial returns at once, with nothing changed. *)
Lemma run_nil iter r res r' :
  run' iter r res r' [] ->
  res = Returned /\ r' = r /\ maxLineSearch param < iter.
Proof. inversion 1; subst. repeat split; assumption. Qed.

Lemma run_length iter r res r' tr :
  run' iter r res r' tr ->
  Z.of_nat (length tr) <= Z.max 0 (maxLineSearch param + 1 - iter).
Proof.
  induction 1; cbn [length]; try lia.
Qed.

Lemma run_energy iter r res r' tr :
  run' iter r res r' tr -> fx r' = last_energy (fx r) tr.
Proof.
  induction 1 as [iter r Hi|iter r t Hi Ht Hv|iter r t e Hi Ht Hv
                 |iter r t width e Hi Ht Hv Hs
                 |iter r t width s res r' ts Hi Ht Hv Hs Hrun IH];
    try reflexivity.
  rewrite IH. reflexivity.
Qed.

End Runs.

(** The two ways through [LineSearch]: the descent check throws, or the
    loop runs from iteration 0 with the caller's references. *)
Lemma LineSearch_cases r res r' tr :
  LineSearch r = (res, r', tr) ->
  ((dg_init_of >? B64.zero)%sc = true /\
   res = Threw direction_increases /\ r' = r /\ tr = []) \/
  ((dg_init_of >? B64.zero)%sc = false /\
   run (x r) (w r) (fx r) (ftol param * dg_init_of)%sc 0 r res r' tr).
Proof.
  unfold LineSearch.
  destruct (dg_init_of >? B64.zero)%sc.
  - intros [= <- <- <-]. left. repeat split.
  - intros Hl. right. split; [reflexivity|].
    apply loop_run in Hl; [exact Hl|]. lia.
Qed.

(** *** Trials and their verdicts *)

Lemma built_fields xp wp iter s :
  let t := built xp wp iter s in
  t_iter t = iter /\ t_step t = s /\
  t_x t = candidate_x xp s /\
  t_mu t = convertRealToComplex mingroc (t_x t) /\
  t_w t = candidate_w wp s /\
  t_valid t = validStep (t_mu t) (t_w t) /\
  t_fx t =
    if t_valid t
    then Some (calculateEnergy mingroc (t_mu t) (t_w t) NNI
                 calcGrowthEnergy calcMuEnergy)
    else None.
Proof. cbn. repeat split. Qed.

Lemma forallb_In {A} (f : A -> bool) (l : list A) :
  forallb f l = true <-> (forall a, In a l -> f a = true).
Proof.
  induction l as [|a l IH]; cbn.
  - split; [intros _ a []|reflexivity].
  - rewrite andb_true_iff, IH. split.
    + intros [Ha Hl] b [<-|Hb]; auto.
    + intros H. split; [apply H; now left|intros b Hb; apply H; now right].
Qed.

Lemma validStep_feasible mu w' :
  validStep mu w' = true <-> feasible mu w'.
Proof.
  unfold validStep, feasible, all_abs_lt_one, all_abs_le_one.
  destruct (checkSelfIntersections param).
  - rewrite !andb_true_iff, !forallb_In, negb_true_iff. intuition.
  - rewrite andb_true_iff, !forallb_In. intuition congruence.
Qed.

Lemma verdict_infeasible fx_init test_decr t :
  t_fx t = None -> trial_verdict fx_init test_decr t = Shrink dec.
Proof. unfold trial_verdict. now intros ->. Qed.

Lemma verdict_Accept fx_init test_decr t :
  trial_verdict fx_init test_decr t = Accept ->
  exists f, t_fx t = Some f /\
            termination f fx_init (t_step t) test_decr = Accept.
Proof.
  unfold trial_verdict. destruct (t_fx t) as [f|]; [|discriminate].
  intros H. now exists f.
Qed.

Lemma verdict_Fatal fx_init test_decr t e :
  trial_verdict fx_init test_decr t = Fatal e -> e = invalid_termination.
Proof.
  unfold trial_verdict, termination.
  destruct (t_fx t); [|discriminate].
  repeat match goal with
         | |- context [if ?b then _ else _] => destruct b
         end; congruence.
Qed.

(** The checks before a retry throw one of three errors. *)
Lemma shrink_inl iter s width e :
  shrink iter s width = inl e ->
  (maxLineSearch param <= iter /\ e = max_iterations_reached) \/
  (iter < maxLineSearch param /\
   (s <? minStep param)%sc = true /\ e = step_too_small) \/
  (iter < maxLineSearch param /\
   (s <? minStep param)%sc = false /\ (s >? maxStep param)%sc = true /\
   e = step_too_large).
Proof.
  unfold shrink.
  destruct (iter >=? maxLineSearch param) eqn:Hi.
  - intros [= <-]. left. split; [lia|reflexivity].
  - destruct (s <? minStep param)%sc.
    + intros [= <-]. right; left. repeat split. lia.
    + destruct (s >? maxStep param)%sc; [|discriminate].
      intros [= <-]. right; right. repeat split. lia.
Qed.

(** With the mode ARMIJO a trial is accepted only with a finite energy
    that passed both comparisons. *)
Lemma termination_Accept_armijo f fx_init s test_decr :
  lineSearchTermination param = LINE_SEARCH_TERMINATION_ARMIJO ->
  termination f fx_init s test_decr = Accept ->
  B64.isnan f = false /\ B64.isinf f = false /\
  (f >? fx_init)%sc = false /\
  (f >? fx_init + s * test_decr)%sc = false.
Proof.
  unfold termination. intros ->. rewrite b64_neqb_self. cbn.
  destruct (B64.isnan f); [discriminate|].
  destruct (B64.isinf f); [discriminate|]. cbn.
  destruct (f >? fx_init)%sc; [discriminate|].
  destruct (f >? fx_init + s * test_decr)%sc; [discriminate|].
  intros _. repeat split.
Qed.

(** *** Lists of trials *)

Lemma last_energy_snoc fx0 ts t :
  last_energy fx0 (ts ++ [t]) =
  match t_fx t with Some f => f | None => last_energy fx0 ts end.
Proof. unfold last_energy. rewrite fold_left_app. reflexivity. Qed.

Lemma last_energy_last fx0 ts t f :
  last ts = Some t -> t_fx t = Some f -> last_energy fx0 ts = f.
Proof.
  intros Hl Hf. apply last_Some in Hl as [ts' ->].
  rewrite last_energy_snoc, Hf. reflexivity.
Qed.

Lemma lookup_last_trial (ts : list trial) (k : nat) t :
  ts !! k = Some t -> ts !! S k = None -> last ts = Some t.
Proof.
  intros Hk Hn. rewrite last_lookup.
  apply lookup_lt_Some in Hk as Hlt. apply lookup_ge_None in Hn.
  replace (pred (length ts)) with k by lia. exact Hk.
Qed.

(** *** The step after [n] rejections *)

Lemma halved_succ_out n : forall s,
  halved (S n) s = (halved n s * B64.half)%sc.
Proof.
  induction n as [|n IH]; intros s; [reflexivity|].
  rewrite halved_succ, IH. reflexivity.
Qed.

Lemma halved_nonneg n : forall s,
  B64.valid s = true -> (B64.zero <=? s)%sc = true ->
  B64.valid (halved n s) = true /\ (B64.zero <=? halved n s)%sc = true.
Proof.
  induction n as [|n IH]; intros s Hv Hs; [now split|].
  rewrite halved_succ.
  destruct (b64_half_le s Hv Hs) as (_ & Hv' & Hs').
  apply IH; assumption.
Qed.

Lemma halved_finite n : forall s,
  B64.valid s = true -> (B64.zero <=? s)%sc = true ->
  B64.isfinite s = true -> B64.isfinite (halved n s) = true.
Proof.
  induction n as [|n IH]; intros s Hv Hs Hf; [exact Hf|].
  rewrite halved_succ.
  destruct (b64_half_le s Hv Hs) as (_ & Hv' & Hs').
  apply IH; [assumption..|]. apply b64_half_finite; assumption.
Qed.

(** *** Pinning *)

Lemma pin_one_length wp v i : length (pin_one wp v i) = length v.
Proof.
  unfold pin_one. destruct (wp !! i); [apply length_insert|reflexivity].
Qed.

Lemma pin_one_keeps wp v i j :
  v !! j = wp !! j -> pin_one wp v i !! j = wp !! j.
Proof.
  unfold pin_one. intros Hj. destruct (wp !! i) as [z|] eqn:Hi; [|exact Hj].
  destruct (Nat.eq_dec i j) as [->|Hne].
  - rewrite Hi. apply list_lookup_insert_eq.
    apply lookup_lt_is_Some. exists z.
    transitivity (wp !! j); assumption.
  - rewrite list_lookup_insert_ne by exact Hne. exact Hj.
Qed.

Lemma pin_one_sets wp v i :
  length v = length wp -> pin_one wp v i !! i = wp !! i.
Proof.
  unfold pin_one. intros Hlen. destruct (wp !! i) as [z|] eqn:Hi.
  - apply list_lookup_insert_eq. apply lookup_lt_Some in Hi. lia.
  - apply lookup_ge_None. apply lookup_ge_None in Hi. lia.
Qed.

Lemma pin_fold wp (l : list nat) : forall v,
  length v = length wp ->
  length (fold_left (pin_one wp) l v) = length wp /\
  forall i, In i l \/ v !! i = wp !! i ->
            fold_left (pin_one wp) l v !! i = wp !! i.
Proof.
  induction l as [|j l IH]; intros v Hlen; cbn [fold_left].
  - split; [exact Hlen|]. intros i [[]|H]. exact H.
  - assert (Hlen' : length (pin_one wp v j) = length wp)
      by (rewrite pin_one_length; exact Hlen).
    destruct (IH _ Hlen') as [IH1 IH2]. split; [exact IH1|].
    intros i [[->|Hi]|Hv]; apply IH2.
    + right. apply pin_one_sets. exact Hlen.
    + now left.
    + right. apply pin_one_keeps. exact Hv.
Qed.

Lemma caxpy_length wp s : forall dw',
  length (caxpy wp s dw') = Nat.min (length wp) (length dw').
Proof.
  induction wp as [|a wp IH]; intros [|d dw']; cbn; try reflexivity.
  now rewrite IH.
Qed.

(** What follows a rejected trial is decided by the checks before a retry:
    either they throw, and the trial is the last one, or the next trial is
    built with the step they computed. *)
Lemma run_rejected_next xp wp fx_init test_decr iter r res r' tr :
  run xp wp fx_init test_decr iter r res r' tr ->
  forall (k : nat) t width,
    tr !! k = Some t ->
    trial_verdict fx_init test_decr t = Shrink width ->
    match shrink (t_iter t) (t_step t) width with
    | inl e => res = Threw e /\ tr !! S k = None
    | inr s => exists t', tr !! S k = Some t' /\ t_step t' = s /\
                          t_iter t' = t_iter t + 1
    end.
Proof.
  induction 1 as [iter r Hi|iter r t Hi Ht Hv|iter r t e Hi Ht Hv
                 |iter r t width e Hi Ht Hv Hs
                 |iter r t width s res r' ts Hi Ht Hv Hs Hrun IH];
    intros k t0 width0 Hk Hv0.
  - destruct k; discriminate.
  - destruct k as [|[|k]]; [|discriminate..].
    injection Hk as <-. congruence.
  - destruct k as [|[|k]]; [|discriminate..].
    injection Hk as <-. congruence.
  - destruct k as [|[|k]]; [|discriminate..].
    injection Hk as <-.
    assert (width0 = width) as -> by congruence.
    assert (Hti : t_iter t = iter) by (rewrite Ht; reflexivity).
    assert (Hts : t_step t = step r) by (rewrite Ht; reflexivity).
    rewrite Hti, Hts, Hs. split; reflexivity.
  - destruct k as [|k].
    + injection Hk as <-.
      assert (width0 = width) as -> by congruence.
      assert (Hti : t_iter t = iter) by (rewrite Ht; reflexivity).
      assert (Hts : t_step t = step r) by (rewrite Ht; reflexivity).
      rewrite Hti, Hts, Hs.
      apply shrink_inr in Hs as (Hlt & _).
      destruct ts as [|t1 ts]; [inversion Hrun; subst; lia|].
      exists t1. split; [reflexivity|].
      rewrite (run_nth _ _ _ _ _ _ _ _ _ Hrun 0%nat t1 eq_refl).
      cbn. split; [reflexivity|lia].
    + cbn in Hk. apply (IH k t0 width0 Hk Hv0).
Qed.

(** Every exception that leaves the loop. *)
Lemma run_throws xp wp fx_init test_decr iter r e r' tr :
  run xp wp fx_init test_decr iter r (Threw e) r' tr ->
  In e [max_iterations_reached; step_too_small; step_too_large;
        invalid_termination].
Proof.
  intros Hrun.
  destruct (last tr) as [t|] eqn:Hl.
  - destruct (run_end _ _ _ _ _ _ _ _ _ Hrun t Hl) as (_ & _ & _ & _ & He).
    destruct He as [He|(width & _ & He)].
    + apply verdict_Fatal in He as ->. cbn. tauto.
    + apply shrink_inl in He as [(_ & ->)|[(_ & _ & ->)|(_ & _ & _ & ->)]];
        cbn; tauto.
  - apply last_None in Hl as ->. apply run_nil in Hrun as [[=] _].
Qed.

(** The exception of the initial check on the step never leaves a call. *)
Lemma step_check_throws_nothing (r : refs) res r' tr :
  LineSearch r = (res, r', tr) -> res <> Threw step_must_be_positive.
Proof.
  intros Hls.
  apply LineSearch_cases in Hls as [(_ & -> & _)|(_ & Hrun)]; [discriminate|].
  destruct res as [|e]; [discriminate|].
  apply run_throws in Hrun. cbn in Hrun.
  intros [= ->]. intuition discriminate.
Qed.

(** From a finite energy, a finite [ftol * dg_init] and a finite
    non-negative step, the Armijo bound at the step that a call ends with is
    a number. *)
Lemma armijo_bound_is_a_number (r : refs) res r' tr :
  B64.isfinite (fx r) = true ->
  B64.isfinite (ftol param * dot grad drt)%sc = true ->
  B64.valid (step r) = true -> (B64.zero <=? step r)%sc = true ->
  B64.isfinite (step r) = true ->
  LineSearch r = (res, r', tr) ->
  B64.isnan (fx r + step r' * (ftol param * dot grad drt))%sc = false.
Proof.
  intros Hfx Htd Hv Hs Hf Hls.
  apply b64_add_number; [exact Hfx|].
  apply b64_mul_number; [|exact Htd].
  apply LineSearch_cases in Hls as [(_ & _ & -> & _)|(_ & Hrun)];
    [exact Hf|].
  destruct (last tr) as [t|] eqn:Hl.
  - destruct (run_end _ _ _ _ _ _ _ _ _ Hrun t Hl) as (_ & _ & -> & _).
    rewrite last_lookup in Hl.
    rewrite (run_nth _ _ _ _ _ _ _ _ _ Hrun _ t Hl). cbn.
    apply halved_finite; assumption.
  - apply last_None in Hl as ->.
    apply run_nil in Hrun as (_ & -> & _). exact Hf.
Qed.

(** ** The claims *)

(** C2 (as amended): when the initial directional derivative
    [grad.dot(drt)] is strictly positive, the call throws the logic error
    of the descent check before any candidate is built: no trial exists and
    the caller's references are as they were passed. *)
Theorem ascent_direction_is_rejected (r : refs) :
  (dot grad drt >? B64.zero)%sc = true ->
  LineSearch r = (Threw direction_increases, r, []).
Proof.
  intros H. unfold LineSearch, dg_init_of. rewrite H. reflexivity.
Qed.

(** C3 (as amended): the bounds on the step are checked when a trial has
    been rejected and the budget allows another one.  A trial that is
    followed by another one had a step that is neither below [minStep] nor
    above [maxStep], and the next trial uses its half; a rejected trial
    within the budget whose step is out of range ends the call with the
    matching fatal error. *)
Theorem step_bounds_are_checked_before_shrinking (r : refs) res r' tr :
  LineSearch r = (res, r', tr) ->
  (forall (k : nat) t t', tr !! k = Some t -> tr !! S k = Some t' ->
     (t_step t <? minStep param)%sc = false /\
     (t_step t >? maxStep param)%sc = false /\
     t_step t' = (t_step t * B64.half)%sc) /\
  (forall t, last tr = Some t ->
     rejected (fx r) (ftol param * dot grad drt)%sc t ->
     t_iter t < maxLineSearch param ->
     if (t_step t <? minStep param)%sc then res = Threw step_too_small
     else (t_step t >? maxStep param)%sc = true /\
          res = Threw step_too_large).
Proof.
  intros Hls.
  apply LineSearch_cases in Hls as [(_ & -> & -> & ->)|(_ & Hrun)].
  { split; [intros k t t' Hk; destruct k; discriminate|discriminate]. }
  split.
  - intros k t t' Hk Hk'.
    destruct (run_consecutive _ _ _ _ _ _ _ _ _ Hrun k t t' Hk Hk')
      as (_ & _ & Hmin & Hmax & Hstep).
    repeat split; assumption.
  - intros t Hl [width Hv] Hlt.
    destruct (run_end _ _ _ _ _ _ _ _ _ Hrun t Hl) as (_ & _ & _ & _ & He).
    fold dg_init_of in Hv.
    destruct res as [|e]; [congruence|].
    destruct He as [He|(width' & _ & He)]; [congruence|].
    apply shrink_inl in He
      as [(Hge & _)|[(_ & Hmin & ->)|(_ & Hmin & Hmax & ->)]].
    + lia.
    + rewrite Hmin. reflexivity.
    + rewrite Hmin. split; [exact Hmax|reflexivity].
Qed.

(** C4: once the energy of a feasible trial is known, the verdict is the
    first matching row of the decision table of the specification, in its
    order: NaN or infinite energy shrinks, mode NONE accepts, an energy
    above the initial one shrinks, mode DECREASE accepts, an energy above
    [fx_init + step * (ftol * dg_init)] shrinks, mode ARMIJO accepts, any
    other mode is the fatal configuration error; and the iteration acts on
    that verdict. *)
Theorem termination_follows_decision_table :
  (forall f fx_init dg_init s,
     first_match
       (decision_table (lineSearchTermination param) f fx_init dg_init s
          (ftol param))
     = Some (termination f fx_init s (ftol param * dg_init)%sc)) /\
  (forall xp wp fx_init test_decr iter r f,
     t_fx (built xp wp iter (step r)) = Some f ->
     iteration xp wp fx_init test_decr iter r =
     let t := built xp wp iter (step r) in
     match termination f fx_init (step r) test_decr with
     | Accept => (Break, after r t, t)
     | Fatal e => (Throw e, after r t, t)
     | Shrink width =>
         match shrink iter (step r) width with
         | inl e => (Throw e, after r t, t)
         | inr s => (Continue, with_step (after r t) s, t)
         end
     end).
Proof.
  split.
  - intros f fx_init dg_init s.
    unfold decision_table, termination, dec. rewrite b64_neqb_self.
    cbn [first_match].
    repeat match goal with
           | |- context [if ?b then _ else _] => destruct b
           end; reflexivity.
  - intros xp wp fx_init test_decr iter r f Hf.
    rewrite iteration_unfold. cbv zeta.
    unfold trial_verdict at 1. rewrite Hf. reflexivity.
Qed.

(** C5: with the mode ARMIJO, a non-negative budget and an Armijo bound
    [fx_init + s * (ftol * dg_init)] that is a number (not NaN: see
    [armijo_bound_is_a_number]), a call that returns leaves an energy [fx]
    and a step [s] with [fx <= fx_init + s * (ftol * dg_init)]; the returned
    step is the step of the accepted trial and the returned energy is its
    energy. *)
Theorem armijo_holds_on_return (r : refs) r' tr :
  lineSearchTermination param = LINE_SEARCH_TERMINATION_ARMIJO ->
  0 <= maxLineSearch param ->
  LineSearch r = (Returned, r', tr) ->
  B64.isnan (fx r + step r' * (ftol param * dot grad drt))%sc = false ->
  (fx r' <=? fx r + step r' * (ftol param * dot grad drt))%sc = true /\
  exists t, last tr = Some t /\ t_step t = step r' /\
            t_fx t = Some (fx r').
Proof.
  intros Hmode Hbudget Hls Hnan.
  apply LineSearch_cases in Hls as [(_ & [=] & _)|(_ & Hrun)].
  fold dg_init_of in Hnan |- *.
  destruct (last tr) as [t|] eqn:Hl.
  - destruct (run_end _ _ _ _ _ _ _ _ _ Hrun t Hl)
      as (_ & _ & Hstep & _ & Hv).
    apply verdict_Accept in Hv as (f & Hf & Hacc).
    pose proof (run_energy _ _ _ _ _ _ _ _ _ Hrun) as Hfx.
    rewrite (last_energy_last _ _ _ _ Hl Hf) in Hfx.
    apply (termination_Accept_armijo _ _ _ _ Hmode) in Hacc
      as (Hn & _ & _ & Hgt).
    rewrite Hstep, Hfx. split.
    + apply b64_leb_of_not_gtb; [exact Hn| |exact Hgt].
      rewrite <- Hstep. exact Hnan.
    + exists t. repeat split. exact Hf.
  - apply last_None in Hl as ->.
    apply run_nil in Hrun as (_ & _ & Hlt). lia.
Qed.

(** C6: a trial is feasible exactly when every magnitude of the distortion
    field is strictly below 1, every magnitude of the embedding is at most
    1 and, when the check is enabled, the lifted embedding has no
    self-intersection.  The energy is evaluated on the feasible trials
    only.  An infeasible trial takes the shrink-and-retry path: within the
    budget and with a step that is neither below [minStep] nor above
    [maxStep], the next iteration builds a trial with half its step;
    otherwise it is the last trial and the call ends with the error of the
    first check that fails, the budget, the lower bound or the upper bound.
    The feasibility check itself throws nothing. *)
Theorem infeasible_trials_are_not_evaluated (r : refs) res r' tr :
  LineSearch r = (res, r', tr) ->
  forall (k : nat) t, tr !! k = Some t ->
    (t_valid t = true <-> feasible (t_mu t) (t_w t)) /\
    (t_valid t = true ->
     t_fx t = Some (calculateEnergy mingroc (t_mu t) (t_w t) NNI
                      calcGrowthEnergy calcMuEnergy)) /\
    (t_valid t = false ->
     t_fx t = None /\
     if t_iter t >=? maxLineSearch param then
       res = Threw max_iterations_reached /\ tr !! S k = None
     else if (t_step t <? minStep param)%sc then
       res = Threw step_too_small /\ tr !! S k = None
     else if (t_step t >? maxStep param)%sc then
       res = Threw step_too_large /\ tr !! S k = None
     else
       exists t', tr !! S k = Some t' /\
                  t_step t' = (t_step t * B64.half)%sc /\
                  t_iter t' = t_iter t + 1).
Proof.
  intros Hls k t Hk.
  apply LineSearch_cases in Hls as [(_ & -> & -> & ->)|(_ & Hrun)].
  { destruct k; discriminate. }
  pose proof (run_nth _ _ _ _ _ _ _ _ _ Hrun k t Hk) as Ht.
  pose proof (built_fields (x r) (w r) (0 + Z.of_nat k) (halved k (step r)))
    as Hb.
  rewrite <- Ht in Hb. cbv zeta in Hb.
  destruct Hb as (_ & _ & _ & _ & _ & Hvalid & Hfx).
  split; [|split].
  - rewrite Hvalid. apply validStep_feasible.
  - intros Hv. rewrite Hfx, Hv. reflexivity.
  - intros Hv. rewrite Hv in Hfx. split; [exact Hfx|].
    pose proof (run_rejected_next _ _ _ _ _ _ _ _ _ Hrun k t dec Hk
                  (verdict_infeasible _ _ _ Hfx)) as Hnext.
    unfold shrink, dec in Hnext.
    destruct (t_iter t >=? maxLineSearch param); [exact Hnext|].
    destruct (t_step t <? minStep param)%sc; [exact Hnext|].
    destruct (t_step t >? maxStep param)%sc; exact Hnext.
Qed.

(** C7: the step of the [k]-th trial of a call is the caller's step
    multiplied [k] times by 0.5 and by nothing else; the call ends with
    the step of its last trial, unchanged; and from a non-negative step
    the sequence of steps never increases. *)
Theorem step_sequence_only_halves (r : refs) res r' tr :
  LineSearch r = (res, r', tr) ->
  (forall (k : nat) t, tr !! k = Some t -> t_step t = halved k (step r)) /\
  step r' = match last tr with Some t => t_step t | None => step r end /\
  (B64.valid (step r) = true -> (B64.zero <=? step r)%sc = true ->
   forall (k : nat) t t', tr !! k = Some t -> tr !! S k = Some t' ->
     (t_step t' <=? t_step t)%sc = true).
Proof.
  intros Hls.
  apply LineSearch_cases in Hls as [(_ & -> & -> & ->)|(_ & Hrun)].
  { split; [|split]; try reflexivity; intros; destruct k; discriminate. }
  assert (Hsteps : forall (k : nat) t,
             tr !! k = Some t -> t_step t = halved k (step r)).
  { intros k t Hk.
    rewrite (run_nth _ _ _ _ _ _ _ _ _ Hrun k t Hk). reflexivity. }
  split; [exact Hsteps|split].
  - destruct (last tr) as [t|] eqn:Hl.
    + destruct (run_end _ _ _ _ _ _ _ _ _ Hrun t Hl) as (_ & _ & Hs & _).
      exact Hs.
    + apply last_None in Hl as ->.
      apply run_nil in Hrun as (_ & -> & _). reflexivity.
  - intros Hv Hs k t t' Hk Hk'.
    rewrite (Hsteps _ _ Hk), (Hsteps _ _ Hk'), halved_succ_out.
    destruct (halved_nonneg k (step r) Hv Hs) as [Hv' Hs'].
    apply b64_half_le; assumption.
Qed.

(** C8: in every trial built during a call, the embedding at each pinned
    index is the embedding the caller passed: the trial embedding is the
    stepped one, then clipped to the unit circle, then pinned, so that the
    pinning overrides both.  (All vectors have one entry per vertex:
    clipping keeps the size, and [dw] has the size of [w].) *)
Theorem pinned_vertices_keep_their_base_value (r : refs) res r' tr :
  (forall v, length (clipToUnitCircle (m_bdyIDx mingroc) v) = length v) ->
  length dw = length (w r) ->
  LineSearch r = (res, r', tr) ->
  forall (k : nat) t, tr !! k = Some t ->
    t_w t = pin (w r)
              (clipToUnitCircle (m_bdyIDx mingroc)
                 (caxpy (w r) (t_step t) dw)) /\
    forall i, In i fixIDx -> t_w t !! i = w r !! i.
Proof.
  intros Hclip Hdw Hls k t Hk.
  apply LineSearch_cases in Hls as [(_ & -> & -> & ->)|(_ & Hrun)].
  { destruct k; discriminate. }
  rewrite (run_nth _ _ _ _ _ _ _ _ _ Hrun k t Hk). cbn.
  split; [reflexivity|].
  intros i Hi. unfold candidate_w, pin.
  apply pin_fold; [|now left].
  rewrite Hclip, caxpy_length, Hdw. apply Nat.min_id.
Qed.

(** C9: a call builds at most [maxLineSearch + 1] trials, the [k]-th in
    iteration [k]; when the trial of iteration [maxLineSearch] is
    rejected, as infeasible or by the termination tests, the call throws
    the iteration-budget error and the step is not shrunk again; with
    [maxLineSearch = 0] an infeasible first trial is the only trial and the
    call throws that error. *)
Theorem iteration_budget (r : refs) res r' tr :
  LineSearch r = (res, r', tr) ->
  Z.of_nat (length tr) <= Z.max 0 (maxLineSearch param + 1) /\
  (forall (k : nat) t, tr !! k = Some t ->
     t_iter t = Z.of_nat k /\ t_iter t <= maxLineSearch param) /\
  (forall (k : nat) t, tr !! k = Some t ->
     t_iter t = maxLineSearch param ->
     rejected (fx r) (ftol param * dot grad drt)%sc t ->
     res = Threw max_iterations_reached /\
     last tr = Some t /\ step r' = t_step t) /\
  (maxLineSearch param = 0 ->
   forall t, tr !! 0%nat = Some t -> t_valid t = false ->
     res = Threw max_iterations_reached /\ tr = [t]).
Proof.
  intros Hls.
  apply LineSearch_cases in Hls as [(_ & -> & -> & ->)|(_ & Hrun)].
  { cbn. repeat split; try lia; intros; try destruct k; discriminate. }
  pose proof (run_length _ _ _ _ _ _ _ _ _ Hrun) as Hlen.
  rewrite Z.sub_0_r in Hlen.
  assert (Hiter : forall (k : nat) t, tr !! k = Some t ->
             t_iter t = Z.of_nat k /\ t_iter t <= maxLineSearch param).
  { intros k t Hk.
    rewrite (run_nth _ _ _ _ _ _ _ _ _ Hrun k t Hk). cbn.
    apply lookup_lt_Some in Hk. lia. }
  assert (Hlast : forall (k : nat) t, tr !! k = Some t ->
             t_iter t = maxLineSearch param ->
             rejected (fx r) (ftol param * dot grad drt)%sc t ->
             res = Threw max_iterations_reached /\
             last tr = Some t /\ step r' = t_step t).
  { intros k t Hk Hmax [width Hv].
    destruct (Hiter k t Hk) as [Hik _].
    assert (Hl : last tr = Some t).
    { apply (lookup_last_trial _ k); [exact Hk|].
      apply lookup_ge_None. lia. }
    destruct (run_end _ _ _ _ _ _ _ _ _ Hrun t Hl)
      as (_ & _ & Hstep & _ & He).
    fold dg_init_of in Hv.
    destruct res as [|e]; [congruence|].
    destruct He as [He|(width' & _ & He)]; [congruence|].
    apply shrink_inl in He as [(_ & ->)|[(Hlt & _)|(Hlt & _)]];
      [|lia|lia].
    repeat split; assumption. }
  split; [exact Hlen|]. split; [exact Hiter|]. split; [exact Hlast|].
  intros Hzero t H0 Hinv.
  destruct (Hiter 0%nat t H0) as [Hi0 _].
  assert (Hrej : rejected (fx r) (ftol param * dot grad drt)%sc t).
  { exists dec. apply verdict_infeasible.
    pose proof (run_nth _ _ _ _ _ _ _ _ _ Hrun 0%nat t H0) as Ht.
    pose proof (built_fields (x r) (w r) (0 + Z.of_nat 0)
                  (halved 0 (step r))) as Hb.
    rewrite <- Ht in Hb. cbv zeta in Hb.
    destruct Hb as (_ & _ & _ & _ & _ & _ & Hfx).
    rewrite Hinv in Hfx. exact Hfx. }
  split.
  - apply (Hlast 0%nat t H0); [lia|exact Hrej].
  - destruct tr as [|t0 [|t1 tr]]; [discriminate| |cbn in Hlen; lia].
    now injection H0 as ->.
Qed.

(** C10: when the call throws after the loop has started, the caller's
    references are not put back: [x] and [w] hold the last trial that was
    built, [step] the step of that trial (the caller's step after all the
    halvings so far), and [fx] the energy of the last trial that was
    evaluated, if there is one. *)
Theorem references_hold_the_last_trial_on_failure (r : refs) e r' tr :
  LineSearch r = (Threw e, r', tr) ->
  e <> direction_increases ->
  In e [max_iterations_reached; step_too_small; step_too_large;
        invalid_termination] /\
  exists t, last tr = Some t /\
    x r' = t_x t /\ x r' = axpy (x r) (step r') drt /\
    w r' = t_w t /\ w r' = candidate_w (w r) (step r') /\
    step r' = t_step t /\ step r' = halved (pred (length tr)) (step r) /\
    fx r' = last_energy (fx r) tr /\
    (forall f, t_fx t = Some f -> fx r' = f) /\
    (e = invalid_termination \/
     rejected (fx r) (ftol param * dot grad drt)%sc t).
Proof.
  intros Hls Hne.
  apply LineSearch_cases in Hls as [(_ & [= ->] & _)|(_ & Hrun)];
    [congruence|].
  split; [eapply run_throws; exact Hrun|].
  destruct (last tr) as [t|] eqn:Hl.
  2:{ apply last_None in Hl as ->. apply run_nil in Hrun as [[=] _]. }
  exists t. split; [reflexivity|].
  destruct (run_end _ _ _ _ _ _ _ _ _ Hrun t Hl)
    as (Hx & Hw & Hstep & _ & He).
  pose proof (run_energy _ _ _ _ _ _ _ _ _ Hrun) as Hfx.
  pose proof Hl as Hk. rewrite last_lookup in Hk.
  pose proof (run_nth _ _ _ _ _ _ _ _ _ Hrun _ t Hk) as Ht.
  assert (Hts : t_step t = halved (pred (length tr)) (step r))
    by (rewrite Ht; reflexivity).
  repeat split; try assumption.
  - rewrite Hx, Hstep, Hts, Ht. reflexivity.
  - rewrite Hw, Hstep, Hts, Ht. reflexivity.
  - rewrite Hstep. exact Hts.
  - intros f Hf. rewrite Hfx. apply (last_energy_last _ _ _ _ Hl Hf).
  - destruct He as [He|(width & Hv & _)].
    + left. apply verdict_Fatal in He. exact He.
    + right. exists width. exact Hv.
Qed.

(** ** Further properties of a call *)

Lemma termination_Accept_finite f fx_init s test_decr :
  termination f fx_init s test_decr = Accept -> B64.isfinite f = true.
Proof.
  unfold termination. rewrite b64_neqb_self.
  destruct f as [sf|sf| |sf mf ef]; cbn; congruence.
Qed.

Lemma termination_Accept_not_above f fx_init s test_decr :
  lineSearchTermination param <> LINE_SEARCH_TERMINATION_NONE ->
  termination f fx_init s test_decr = Accept ->
  (f >? fx_init)%sc = false.
Proof.
  unfold termination. intros Hmode.
  destruct (_ || _); [discriminate|].
  destruct (lineSearchTermination param); try congruence; cbn;
    destruct (f >? fx_init)%sc; congruence.
Qed.

Lemma isfinite_number (a : Scalar) :
  B64.isfinite a = true -> B64.isnan a = false.
Proof. destruct a; cbn; congruence. Qed.

(** The last trial of a call that started the loop, in terms of the
    references the caller finds. *)
Lemma run_last_built xp wp fx_init test_decr r res r' tr t :
  run xp wp fx_init test_decr 0 r res r' tr ->
  last tr = Some t ->
  t = built xp wp (t_iter t) (step r') /\
  x r' = t_x t /\ w r' = t_w t /\ step r' = t_step t.
Proof.
  intros Hrun Hl.
  destruct (run_end _ _ _ _ _ _ _ _ _ Hrun t Hl) as (Hx & Hw & Hs & _).
  pose proof Hl as Hk. rewrite last_lookup in Hk.
  pose proof (run_nth _ _ _ _ _ _ _ _ _ Hrun _ t Hk) as Ht.
  repeat split; try assumption.
  rewrite Hs. rewrite Ht at 1. rewrite Ht. reflexivity.
Qed.

(** X1: what a successful call hands back.  With a non-negative budget, a
    call that returns leaves the base state moved by the returned step,
    clipped and pinned; that state passed the feasibility test; [fx] is the
    energy of exactly that state, and it is finite. *)
Theorem returned_state_is_the_accepted_trial (r : refs) r' tr :
  0 <= maxLineSearch param ->
  LineSearch r = (Returned, r', tr) ->
  x r' = axpy (x r) (step r') drt /\
  w r' = pin (w r)
           (clipToUnitCircle (m_bdyIDx mingroc) (caxpy (w r) (step r') dw)) /\
  validStep (convertRealToComplex mingroc (x r')) (w r') = true /\
  fx r' = calculateEnergy mingroc (convertRealToComplex mingroc (x r'))
            (w r') NNI calcGrowthEnergy calcMuEnergy /\
  B64.isfinite (fx r') = true.
Proof.
  intros Hbudget Hls.
  apply LineSearch_cases in Hls as [(_ & [=] & _)|(_ & Hrun)].
  destruct (last tr) as [t|] eqn:Hl.
  2:{ apply last_None in Hl as ->.
      apply run_nil in Hrun as (_ & _ & Hlt). lia. }
  destruct (run_last_built _ _ _ _ _ _ _ _ _ Hrun Hl)
    as (Ht & Hx & Hw & Hs).
  destruct (run_end _ _ _ _ _ _ _ _ _ Hrun t Hl) as (_ & _ & _ & _ & Hv).
  apply verdict_Accept in Hv as (f & Hf & Hacc).
  pose proof (run_energy _ _ _ _ _ _ _ _ _ Hrun) as Hfx.
  rewrite (last_energy_last _ _ _ _ Hl Hf) in Hfx.
  apply termination_Accept_finite in Hacc.
  pose proof (built_fields (x r) (w r) (t_iter t) (step r')) as Hb.
  rewrite <- Ht in Hb. cbv zeta in Hb.
  destruct Hb as (_ & _ & Htx & Hmu & Htw & Hvalid & Htfx).
  assert (Hval : t_valid t = true).
  { destruct (t_valid t); [reflexivity|]. rewrite Hf in Htfx. discriminate. }
  rewrite Hval in Htfx. rewrite Hf in Htfx. injection Htfx as Hfe.
  rewrite Hx, Hw, Hfx.
  split; [exact Htx|]. split; [exact Htw|].
  rewrite <- Hmu. split; [rewrite <- Hvalid; exact Hval|].
  split; [exact Hfe|exact Hacc].
Qed.

(** X2: with the mode DECREASE or ARMIJO and an initial energy that is a
    number, the energy a call returns is not above the initial energy. *)
Theorem returned_energy_does_not_increase (r : refs) r' tr :
  lineSearchTermination param = LINE_SEARCH_TERMINATION_DECREASE \/
  lineSearchTermination param = LINE_SEARCH_TERMINATION_ARMIJO ->
  0 <= maxLineSearch param ->
  B64.isnan (fx r) = false ->
  LineSearch r = (Returned, r', tr) ->
  (fx r' <=? fx r)%sc = true.
Proof.
  intros Hmode Hbudget Hnan Hls.
  apply LineSearch_cases in Hls as [(_ & [=] & _)|(_ & Hrun)].
  destruct (last tr) as [t|] eqn:Hl.
  2:{ apply last_None in Hl as ->.
      apply run_nil in Hrun as (_ & _ & Hlt). lia. }
  destruct (run_end _ _ _ _ _ _ _ _ _ Hrun t Hl) as (_ & _ & _ & _ & Hv).
  apply verdict_Accept in Hv as (f & Hf & Hacc).
  pose proof (run_energy _ _ _ _ _ _ _ _ _ Hrun) as Hfx.
  rewrite (last_energy_last _ _ _ _ Hl Hf) in Hfx. rewrite Hfx.
  apply b64_leb_of_not_gtb; [|exact Hnan|].
  - apply isfinite_number. eapply termination_Accept_finite. exact Hacc.
  - eapply termination_Accept_not_above; [|exact Hacc].
    destruct Hmode as [-> | ->]; discriminate.
Qed.

(** X3: with the mode NONE the call returns at the first trial that is
    feasible and has a finite energy, whether or not that energy is above
    the initial one: such a trial is the last one, the call returns, and
    the caller finds its energy and its step. *)
Theorem mode_none_returns_first_finite_feasible_trial (r : refs) res r' tr :
  lineSearchTermination param = LINE_SEARCH_TERMINATION_NONE ->
  LineSearch r = (res, r', tr) ->
  forall (k : nat) t f,
    tr !! k = Some t -> t_fx t = Some f -> B64.isfinite f = true ->
    res = Returned /\ tr !! S k = None /\
    fx r' = f /\ step r' = t_step t.
Proof.
  intros Hmode Hls k t f Hk Hf Hfin.
  apply LineSearch_cases in Hls as [(_ & -> & -> & ->)|(_ & Hrun)].
  { destruct k; discriminate. }
  assert (Hv : trial_verdict (fx r) (ftol param * dg_init_of)%sc t = Accept).
  { unfold trial_verdict, termination. rewrite Hf, b64_neqb_self, Hmode.
    destruct f; try discriminate Hfin; reflexivity. }
  assert (Hnext : tr !! S k = None).
  { destruct (tr !! S k) as [t'|] eqn:Hk'; [|reflexivity].
    destruct (run_consecutive _ _ _ _ _ _ _ _ _ Hrun k t t' Hk Hk')
      as ([width Hrej] & _).
    congruence. }
  pose proof (lookup_last_trial _ _ _ Hk Hnext) as Hl.
  destruct (run_end _ _ _ _ _ _ _ _ _ Hrun t Hl) as (_ & _ & Hs & _ & He).
  pose proof (run_energy _ _ _ _ _ _ _ _ _ Hrun) as Hfx.
  rewrite (last_energy_last _ _ _ _ Hl Hf) in Hfx.
  repeat split; try assumption.
  destruct res as [|e]; [reflexivity|].
  destruct He as [He|(width & He & _)]; congruence.
Qed.

Lemma termination_Fatal_other f fx_init s test_decr e :
  termination f fx_init s test_decr = Fatal e ->
  (exists c, lineSearchTermination param = LINE_SEARCH_TERMINATION_other c) /\
  B64.isfinite f = true /\
  (f >? fx_init)%sc = false /\
  (f >? fx_init + s * test_decr)%sc = false.
Proof.
  unfold termination. rewrite b64_neqb_self.
  destruct f as [sf|sf| |sf mf ef]; cbn; try discriminate;
    destruct (lineSearchTermination param) as [| | |c]; cbn;
      try discriminate;
      destruct (_ >? fx_init)%sc; try discriminate;
      destruct (_ >? fx_init + s * test_decr)%sc; try discriminate;
      intros _; repeat split; exists c; reflexivity.
Qed.

Lemma termination_other_never_accepts f fx_init s test_decr c :
  lineSearchTermination param = LINE_SEARCH_TERMINATION_other c ->
  termination f fx_init s test_decr <> Accept.
Proof.
  unfold termination. intros ->. cbn.
  repeat match goal with
         | |- context [if ?b then _ else _] => destruct b
         end; discriminate.
Qed.

(** X4: a termination mode that is none of NONE, DECREASE, ARMIJO never
    lets a call with a non-negative budget return.  The configuration error
    is thrown only with such a mode, and only by a trial that is feasible,
    has a finite energy and passed both energy comparisons; until then the
    trials are rejected as usual, so the call may as well end with one of
    the errors of the retry checks. *)
Theorem unrecognized_mode_never_returns (r : refs) res r' tr :
  LineSearch r = (res, r', tr) ->
  (forall c,
     lineSearchTermination param = LINE_SEARCH_TERMINATION_other c ->
     0 <= maxLineSearch param -> res <> Returned) /\
  (res = Threw invalid_termination ->
   (exists c, lineSearchTermination param = LINE_SEARCH_TERMINATION_other c) /\
   exists t, last tr = Some t /\ t_valid t = true /\
             t_fx t = Some (fx r') /\
             B64.isfinite (fx r') = true /\
             (fx r' >? fx r)%sc = false /\
             (fx r' >? fx r + step r' * (ftol param * dot grad drt))%sc
             = false).
Proof.
  intros Hls.
  apply LineSearch_cases in Hls as [(_ & -> & -> & ->)|(_ & Hrun)].
  { split; [discriminate|discriminate]. }
  split.
  - intros c Hmode Hbudget ->.
    destruct (last tr) as [t|] eqn:Hl.
    + destruct (run_end _ _ _ _ _ _ _ _ _ Hrun t Hl) as (_ & _ & _ & _ & Hv).
      apply verdict_Accept in Hv as (f & _ & Hacc).
      exact (termination_other_never_accepts _ _ _ _ c Hmode Hacc).
    + apply last_None in Hl as ->.
      apply run_nil in Hrun as (_ & _ & Hlt). lia.
  - intros ->.
    destruct (last tr) as [t|] eqn:Hl.
    2:{ apply last_None in Hl as ->. apply run_nil in Hrun as [[=] _]. }
    destruct (run_end _ _ _ _ _ _ _ _ _ Hrun t Hl) as (_ & _ & Hs & _ & He).
    destruct He as [He|(width & _ & He)].
    2:{ apply shrink_inl in He
          as [(_ & [=])|[(_ & _ & [=])|(_ & _ & _ & [=])]]. }
    unfold trial_verdict in He.
    destruct (t_fx t) as [f|] eqn:Hf; [|discriminate].
    apply termination_Fatal_other in He as (Hc & Hfin & Hgt & Hbound).
    pose proof (run_energy _ _ _ _ _ _ _ _ _ Hrun) as Hfx.
    rewrite (last_energy_last _ _ _ _ Hl Hf) in Hfx.
    split; [exact Hc|]. exists t. rewrite Hfx, Hs.
    split; [reflexivity|]. split.
    + destruct (run_last_built _ _ _ _ _ _ _ _ _ Hrun Hl) as (Ht & _).
      pose proof (built_fields (x r) (w r) (t_iter t) (step r')) as Hb.
      rewrite <- Ht in Hb. cbv zeta in Hb.
      destruct Hb as (_ & _ & _ & _ & _ & _ & Htfx).
      destruct (t_valid t); [reflexivity|]. rewrite Hf in Htfx. discriminate.
    + repeat split; assumption.
Qed.

(** X5: what each exception of a call says about the call.  The logic error
    of the descent check is the only one thrown without a trial; the
    iteration-budget error means that all [maxLineSearch + 1] trials were
    built; the step errors mean that the budget was not used up and that
    the step the caller finds is below [minStep], respectively not below
    [minStep] and above [maxStep]. *)
Theorem exceptions_of_a_call (r : refs) e r' tr :
  LineSearch r = (Threw e, r', tr) ->
  (e = direction_increases <-> tr = []) /\
  (e = direction_increases -> (dot grad drt >? B64.zero)%sc = true /\ r' = r) /\
  (e = max_iterations_reached ->
   Z.of_nat (length tr) = maxLineSearch param + 1) /\
  (e = step_too_small ->
   Z.of_nat (length tr) <= maxLineSearch param /\
   (step r' <? minStep param)%sc = true) /\
  (e = step_too_large ->
   Z.of_nat (length tr) <= maxLineSearch param /\
   (step r' <? minStep param)%sc = false /\
   (step r' >? maxStep param)%sc = true).
Proof.
  intros Hls.
  apply LineSearch_cases in Hls as [(Hdg & [= He] & -> & ->)|(_ & Hrun)].
  { subst e. repeat split; intros; try discriminate. exact Hdg. }
  pose proof (run_throws _ _ _ _ _ _ _ _ _ Hrun) as Hin.
  destruct (last tr) as [t|] eqn:Hl.
  2:{ apply last_None in Hl as ->. apply run_nil in Hrun as [[=] _]. }
  assert (Hne : tr <> []) by (intros ->; discriminate).
  assert (Hnd : e <> direction_increases)
    by (cbn in Hin; intuition (subst; discriminate)).
  destruct (run_end _ _ _ _ _ _ _ _ _ Hrun t Hl) as (_ & _ & Hs & _ & He).
  pose proof Hl as Hk. rewrite last_lookup in Hk.
  pose proof (run_nth _ _ _ _ _ _ _ _ _ Hrun _ t Hk) as Ht.
  assert (Hiter : t_iter t = Z.of_nat (pred (length tr)))
    by (rewrite Ht; cbn; lia).
  assert (Hpos : (0 < length tr)%nat)
    by (destruct tr; [congruence|cbn; lia]).
  split; [split; intros; congruence|]. split; [intros; congruence|].
  destruct He as [He|(width & _ & He)].
  { apply verdict_Fatal in He as ->. repeat split; discriminate. }
  apply shrink_inl in He
    as [(Hge & ->)|[(Hlt & Hmin & ->)|(Hlt & Hmin & Hmax & ->)]].
  - split; [intros _|split; discriminate].
    pose proof (run_length _ _ _ _ _ _ _ _ _ Hrun). lia.
  - split; [discriminate|]. split; [intros _|discriminate].
    rewrite Hs. split; [lia|exact Hmin].
  - split; [discriminate|]. split; [discriminate|intros _].
    rewrite Hs. split; [lia|]. split; assumption.
Qed.

(** X6: the edges of the budget.  A call that builds no trial hands the
    references back as they were, and reports success only when the budget
    is negative; a negative budget never builds a trial; and with a budget
    of zero or less the step is never changed. *)
Theorem budget_edge_cases (r : refs) res r' tr :
  LineSearch r = (res, r', tr) ->
  (tr = [] -> r' = r /\ (res = Returned -> maxLineSearch param < 0)) /\
  (maxLineSearch param < 0 -> tr = []) /\
  (maxLineSearch param <= 0 -> step r' = step r).
Proof.
  intros Hls.
  apply LineSearch_cases in Hls as [(_ & -> & -> & ->)|(_ & Hrun)].
  { repeat split; discriminate. }
  pose proof (run_length _ _ _ _ _ _ _ _ _ Hrun) as Hlen.
  rewrite Z.sub_0_r in Hlen.
  split; [|split].
  - intros ->. apply run_nil in Hrun as (_ & -> & Hlt). split; [reflexivity|lia].
  - intros Hneg. destruct tr; [reflexivity|cbn in Hlen; lia].
  - intros Hle.
    destruct (last tr) as [t|] eqn:Hl.
    + destruct (run_end _ _ _ _ _ _ _ _ _ Hrun t Hl) as (_ & _ & Hs & _).
      rewrite last_lookup in Hl.
      rewrite Hs, (run_nth _ _ _ _ _ _ _ _ _ Hrun _ t Hl).
      destruct tr as [|t0 [|t1 tr]]; [discriminate|reflexivity|].
      cbn in Hlen. lia.
    + apply last_None in Hl as ->.
      apply run_nil in Hrun as (_ & -> & _). reflexivity.
Qed.

Lemma axpy_length xp s : forall d,
  length (axpy xp s d) = Nat.min (length xp) (length d).
Proof.
  induction xp as [|a xp IH]; intros [|b d]; cbn; try reflexivity.
  now rewrite IH.
Qed.

Lemma pin_one_other wp v i j :
  i <> j -> pin_one wp v i !! j = v !! j.
Proof.
  unfold pin_one. intros Hne. destruct (wp !! i); [|reflexivity].
  apply list_lookup_insert_ne. exact Hne.
Qed.

Lemma pin_fold_other wp (l : list nat) : forall v j,
  ~ In j l -> fold_left (pin_one wp) l v !! j = v !! j.
Proof.
  induction l as [|i l IH]; intros v j Hj; cbn [fold_left]; [reflexivity|].
  rewrite IH by (intros H; apply Hj; now right).
  apply pin_one_other. intros ->. apply Hj. now left.
Qed.

(** X7: the vectors keep their sizes.  When the directions have the sizes
    of the vectors they move and clipping keeps the size, every trial and
    the references at the end of the call, however it ends, have the sizes
    the caller passed. *)
Theorem sizes_are_kept (r : refs) res r' tr :
  length drt = length (x r) ->
  length dw = length (w r) ->
  (forall v, length (clipToUnitCircle (m_bdyIDx mingroc) v) = length v) ->
  LineSearch r = (res, r', tr) ->
  length (x r') = length (x r) /\ length (w r') = length (w r) /\
  forall (k : nat) t, tr !! k = Some t ->
    length (t_x t) = length (x r) /\ length (t_w t) = length (w r).
Proof.
  intros Hdrt Hdw Hclip Hls.
  apply LineSearch_cases in Hls as [(_ & _ & -> & ->)|(_ & Hrun)].
  { split; [reflexivity|]. split; [reflexivity|].
    intros k t Hk. destruct k; discriminate. }
  assert (Htrials : forall (k : nat) t, tr !! k = Some t ->
             length (t_x t) = length (x r) /\ length (t_w t) = length (w r)).
  { intros k t Hk.
    rewrite (run_nth _ _ _ _ _ _ _ _ _ Hrun k t Hk). cbn. split.
    - unfold candidate_x. rewrite axpy_length, Hdrt. apply Nat.min_id.
    - unfold candidate_w, pin. apply pin_fold.
      rewrite Hclip, caxpy_length, Hdw. apply Nat.min_id. }
  destruct (last tr) as [t|] eqn:Hl.
  - destruct (run_end _ _ _ _ _ _ _ _ _ Hrun t Hl) as (Hx & Hw & _).
    rewrite last_lookup in Hl. destruct (Htrials _ t Hl) as [Hlx Hlw].
    rewrite Hx, Hw. split; [exact Hlx|]. split; [exact Hlw|exact Htrials].
  - apply last_None in Hl as ->.
    apply run_nil in Hrun as (_ & -> & _).
    split; [reflexivity|]. split; [reflexivity|exact Htrials].
Qed.

(** X8: pinning touches the pinned indices only.  At every index that is
    not in the fixed set, the embedding of a trial is the stepped and
    clipped embedding. *)
Theorem unpinned_vertices_follow_the_step (r : refs) res r' tr :
  LineSearch r = (res, r', tr) ->
  forall (k : nat) t, tr !! k = Some t ->
    forall i, ~ In i fixIDx ->
      t_w t !! i =
      clipToUnitCircle (m_bdyIDx mingroc) (caxpy (w r) (t_step t) dw) !! i.
Proof.
  intros Hls k t Hk i Hi.
  apply LineSearch_cases in Hls as [(_ & _ & _ & ->)|(_ & Hrun)].
  { destruct k; discriminate. }
  rewrite (run_nth _ _ _ _ _ _ _ _ _ Hrun k t Hk). cbn.
  unfold candidate_w, pin. apply pin_fold_other. exact Hi.
Qed.

(** X9: when every vertex is pinned the embedding does not move.  With all
    the indices of [w] in the fixed set, every trial carries the caller's
    embedding, and so do the references at the end of the call. *)
Theorem pinning_every_vertex_freezes_the_embedding (r : refs) res r' tr :
  length dw = length (w r) ->
  (forall v, length (clipToUnitCircle (m_bdyIDx mingroc) v) = length v) ->
  (forall i : nat, (i < length (w r))%nat -> In i fixIDx) ->
  LineSearch r = (res, r', tr) ->
  w r' = w r /\ forall (k : nat) t, tr !! k = Some t -> t_w t = w r.
Proof.
  intros Hdw Hclip Hall Hls.
  apply LineSearch_cases in Hls as [(_ & _ & -> & ->)|(_ & Hrun)].
  { split; [reflexivity|]. intros k t Hk. destruct k; discriminate. }
  assert (Htrials : forall (k : nat) t, tr !! k = Some t -> t_w t = w r).
  { intros k t Hk.
    rewrite (run_nth _ _ _ _ _ _ _ _ _ Hrun k t Hk). cbn.
    unfold candidate_w, pin. apply list_eq. intros i.
    assert (Hlen : length (clipToUnitCircle (m_bdyIDx mingroc)
                             (caxpy (w r) (halved k (step r)) dw))
                   = length (w r))
      by (rewrite Hclip, caxpy_length, Hdw; apply Nat.min_id).
    apply pin_fold; [exact Hlen|].
    destruct (Nat.lt_ge_cases i (length (w r))) as [Hlt|Hge].
    - left. apply Hall, Hlt.
    - right. transitivity (@None Cplx).
      + apply lookup_ge_None. lia.
      + symmetry. apply lookup_ge_None. lia. }
  split; [|exact Htrials].
  destruct (last tr) as [t|] eqn:Hl.
  - destruct (run_end _ _ _ _ _ _ _ _ _ Hrun t Hl) as (_ & Hw & _).
    rewrite last_lookup in Hl. rewrite Hw. apply (Htrials _ t Hl).
  - apply last_None in Hl as ->.
    apply run_nil in Hrun as (_ & -> & _). reflexivity.
Qed.

Lemma halved_exact k : forall m e,
  Zpos (digits2_pos m) = 53 -> e <= 971 -> -1074 <= e - Z.of_nat k ->
  halved k (S754_finite false m e) = S754_finite false m (e - Z.of_nat k).
Proof.
  induction k as [|k IH]; intros m e Hd He Hk.
  - cbn. f_equal. lia.
  - rewrite halved_succ, b64_half_normal by lia.
    rewrite IH by lia. f_equal. lia.
Qed.

(** X10: shrinking a normal step is exact.  From a positive normal double
    [m * 2^e], the [k]-th trial uses exactly [m * 2^(e - k)], the same
    mantissa with the exponent lowered, as long as that exponent stays in
    the normal range: the halvings round nothing. *)
Theorem normal_steps_shrink_without_rounding (r : refs) res r' tr m e :
  step r = S754_finite false m e ->
  Zpos (digits2_pos m) = 53 -> e <= 971 ->
  LineSearch r = (res, r', tr) ->
  forall (k : nat) t, tr !! k = Some t ->
    -1074 <= e - Z.of_nat k ->
    t_step t = S754_finite false m (e - Z.of_nat k).
Proof.
  intros Hstep Hd He Hls k t Hk Hrange.
  apply LineSearch_cases in Hls as [(_ & _ & _ & ->)|(_ & Hrun)].
  { destruct k; discriminate. }
  rewrite (run_nth _ _ _ _ _ _ _ _ _ Hrun k t Hk). cbn.
  rewrite Hstep. apply halved_exact; assumption.
Qed.

(** The relation determines the loop: the converse of [loop_run]. *)
Lemma run_loop xp wp fx_init test_decr iter r res r' tr :
  run xp wp fx_init test_decr iter r res r' tr ->
  loop xp wp fx_init test_decr
    (Z.to_nat (maxLineSearch param + 1 - iter)) iter r = (res, r', tr).
Proof.
  induction 1 as [iter r Hi|iter r t Hi Ht Hv|iter r t e Hi Ht Hv
                 |iter r t width e Hi Ht Hv Hs
                 |iter r t width s res r' ts Hi Ht Hv Hs Hrun IH].
  - replace (Z.to_nat _) with 0%nat by lia. reflexivity.
  - replace (Z.to_nat _) with (S (Z.to_nat (maxLineSearch param - iter)))
      by lia.
    cbn [loop]. rewrite iteration_unfold. cbv zeta.
    rewrite <- Ht, Hv. reflexivity.
  - replace (Z.to_nat _) with (S (Z.to_nat (maxLineSearch param - iter)))
      by lia.
    cbn [loop]. rewrite iteration_unfold. cbv zeta.
    rewrite <- Ht, Hv. reflexivity.
  - replace (Z.to_nat _) with (S (Z.to_nat (maxLineSearch param - iter)))
      by lia.
    cbn [loop]. rewrite iteration_unfold. cbv zeta.
    rewrite <- Ht, Hv, Hs. reflexivity.
  - replace (Z.to_nat (maxLineSearch param + 1 - iter))
      with (S (Z.to_nat (maxLineSearch param + 1 - (iter + 1)))) by lia.
    cbn [loop]. rewrite iteration_unfold. cbv zeta.
    rewrite <- Ht, Hv, Hs, IH. reflexivity.
Qed.

Lemma run_LineSearch (r : refs) res r' tr :
  (dg_init_of >? B64.zero)%sc = false ->
  run (x r) (w r) (fx r) (ftol param * dg_init_of)%sc 0 r res r' tr ->
  LineSearch r = (res, r', tr).
Proof.
  intros Hdg Hrun. unfold LineSearch. rewrite Hdg.
  apply run_loop in Hrun. rewrite Z.sub_0_r in Hrun. exact Hrun.
Qed.

(** X14: with the mode DECREASE or ARMIJO the call returns at the first
    trial that passes the tests of its mode: a feasible trial with a finite
    energy that is not above the initial energy and, for ARMIJO, not above
    the Armijo bound at the step of the trial, is the last trial, and the
    caller finds its energy and its step. *)
Theorem first_passing_trial_is_returned (r : refs) res r' tr :
  LineSearch r = (res, r', tr) ->
  forall (k : nat) t f,
    tr !! k = Some t -> t_fx t = Some f -> B64.isfinite f = true ->
    (f >? fx r)%sc = false ->
    lineSearchTermination param = LINE_SEARCH_TERMINATION_DECREASE \/
    (lineSearchTermination param = LINE_SEARCH_TERMINATION_ARMIJO /\
     (f >? fx r + t_step t * (ftol param * dot grad drt))%sc = false) ->
    res = Returned /\ tr !! S k = None /\
    fx r' = f /\ step r' = t_step t.
Proof.
  intros Hls k t f Hk Hf Hfin Hgt Hmode.
  apply LineSearch_cases in Hls as [(_ & -> & -> & ->)|(_ & Hrun)].
  { destruct k; discriminate. }
  assert (Hv : trial_verdict (fx r) (ftol param * dg_init_of)%sc t = Accept).
  { unfold trial_verdict, termination, dg_init_of.
    rewrite Hf, b64_neqb_self, Hgt.
    destruct Hmode as [-> | [-> ->]];
      destruct f; try discriminate Hfin; reflexivity. }
  assert (Hnext : tr !! S k = None).
  { destruct (tr !! S k) as [t'|] eqn:Hk'; [|reflexivity].
    destruct (run_consecutive _ _ _ _ _ _ _ _ _ Hrun k t t' Hk Hk')
      as ([width Hrej] & _).
    congruence. }
  pose proof (lookup_last_trial _ _ _ Hk Hnext) as Hl.
  destruct (run_end _ _ _ _ _ _ _ _ _ Hrun t Hl) as (_ & _ & Hs & _ & He).
  pose proof (run_energy _ _ _ _ _ _ _ _ _ Hrun) as Hfx.
  rewrite (last_energy_last _ _ _ _ Hl Hf) in Hfx.
  repeat split; try assumption.
  destruct res as [|e]; [reflexivity|].
  destruct He as [He|(width & He & _)]; congruence.
Qed.

Lemma last_energy_none fx0 (ts : list trial) :
  (forall (k : nat) t, ts !! k = Some t -> t_fx t = None) ->
  last_energy fx0 ts = fx0.
Proof.
  unfold last_energy. revert fx0.
  induction ts as [|t ts IH]; intros fx0 H; [reflexivity|].
  cbn [fold_left]. rewrite (H 0%nat t eq_refl).
  apply IH. intros k t' Hk. apply (H (S k) t' Hk).
Qed.

(** X15: the energy reference is written for feasible trials only.  When
    every trial of a call was infeasible, the caller finds in [fx] the
    energy it passed, although [x] and [w] hold the last trial. *)
Theorem energy_is_untouched_without_a_feasible_trial (r : refs) res r' tr :
  LineSearch r = (res, r', tr) ->
  (forall (k : nat) t, tr !! k = Some t -> t_valid t = false) ->
  fx r' = fx r /\ (res = Returned -> tr = []).
Proof.
  intros Hls Hall.
  apply LineSearch_cases in Hls as [(_ & -> & -> & ->)|(_ & Hrun)].
  { split; [reflexivity|discriminate]. }
  assert (Hnone : forall (k : nat) t, tr !! k = Some t -> t_fx t = None).
  { intros k t0 Hk.
    pose proof (run_nth _ _ _ _ _ _ _ _ _ Hrun k t0 Hk) as Ht.
    pose proof (built_fields (x r) (w r) (0 + Z.of_nat k)
                  (halved k (step r))) as Hb.
    rewrite <- Ht in Hb. cbv zeta in Hb.
    destruct Hb as (_ & _ & _ & _ & _ & _ & Hfx).
    rewrite (Hall k t0 Hk) in Hfx. exact Hfx. }
  split.
  - rewrite (run_energy _ _ _ _ _ _ _ _ _ Hrun).
    apply last_energy_none. exact Hnone.
  - intros ->.
    destruct (last tr) as [t|] eqn:Hl; [|apply last_None in Hl; exact Hl].
    destruct (run_end _ _ _ _ _ _ _ _ _ Hrun t Hl) as (_ & _ & _ & _ & Hv).
    apply verdict_Accept in Hv as (f & Hf & _).
    rewrite last_lookup in Hl. rewrite (Hnone _ t Hl) in Hf. discriminate.
Qed.

Lemma halved_fixed n : forall s,
  (s * B64.half)%sc = s -> halved n s = s.
Proof.
  induction n as [|n IH]; intros s Hs; [reflexivity|].
  rewrite halved_succ, Hs. apply IH, Hs.
Qed.

(** X16: a step that halving does not change (a zero, an infinity or NaN)
    is never repaired.  Every trial of the call is then the same candidate,
    built with the caller's step, so a call that returns does so at its
    first trial: after a first rejection the call can only fail. *)
Theorem unshrinkable_step_is_never_repaired (r : refs) res r' tr :
  (step r * B64.half)%sc = step r ->
  LineSearch r = (res, r', tr) ->
  (forall (k : nat) t, tr !! k = Some t ->
     t_step t = step r /\ t_x t = axpy (x r) (step r) drt /\
     t_w t = candidate_w (w r) (step r)) /\
  step r' = step r /\
  (res = Returned -> (length tr <= 1)%nat).
Proof.
  intros Hfix Hls.
  apply LineSearch_cases in Hls as [(_ & -> & -> & ->)|(_ & Hrun)].
  { split; [|split; [reflexivity|intros _; cbn; lia]].
    intros k t Hk. destruct k; discriminate. }
  assert (Hbuilt : forall (k : nat) t, tr !! k = Some t ->
             t = built (x r) (w r) (0 + Z.of_nat k) (step r)).
  { intros k t Hk.
    pose proof (run_nth _ _ _ _ _ _ _ _ _ Hrun k t Hk) as Ht.
    rewrite (halved_fixed k (step r) Hfix) in Ht. exact Ht. }
  split; [|split].
  - intros k t Hk. rewrite (Hbuilt k t Hk). repeat split.
  - destruct (last tr) as [t|] eqn:Hl.
    + destruct (run_end _ _ _ _ _ _ _ _ _ Hrun t Hl) as (_ & _ & Hs & _).
      rewrite last_lookup in Hl. rewrite Hs, (Hbuilt _ t Hl). reflexivity.
    + apply last_None in Hl as ->.
      apply run_nil in Hrun as (_ & -> & _). reflexivity.
  - intros ->.
    destruct tr as [|t0 [|t1 ts]]; cbn [length]; try lia.
    exfalso.
    destruct (run_consecutive _ _ _ _ _ _ _ _ _ Hrun 0%nat t0 t1
                eq_refl eq_refl) as ([width Hrej] & _).
    destruct (last (t0 :: t1 :: ts)) as [t|] eqn:Hl.
    2:{ apply last_None in Hl. discriminate. }
    destruct (run_end _ _ _ _ _ _ _ _ _ Hrun t Hl) as (_ & _ & _ & _ & Hv).
    rewrite last_lookup in Hl.
    pose proof (Hbuilt _ t Hl) as Ht.
    pose proof (Hbuilt 0%nat t0 eq_refl) as Ht0.
    assert (Hsame : trial_verdict (fx r) (ftol param * dg_init_of)%sc t
                    = trial_verdict (fx r) (ftol param * dg_init_of)%sc t0).
    { rewrite Ht, Ht0. reflexivity. }
    congruence.
Qed.

End LineSearch.

(** ** One search under two sets of parameters *)

Section Comparisons.

Context {C : Collaborators}.

Variable mingroc : MINGROC.
Variable NNI : NaturalNeighborInterpolant.
Variable fixIDx : list nat.
Variable drt : Vector.
Variable dw : CplxVector.
Variable grad : Vector.
Variables calcGrowthEnergy calcMuEnergy : bool.

Local Abbreviation search p :=
  (LineSearch mingroc p NNI fixIDx drt dw grad calcGrowthEnergy calcMuEnergy).
Local Abbreviation run_with p :=
  (run mingroc p NNI fixIDx drt dw calcGrowthEnergy calcMuEnergy).

Lemma shrink_larger_budget p b iter s width :
  iter < maxLineSearch p -> maxLineSearch p <= b ->
  shrink (with_maxLineSearch p b) iter s width = shrink p iter s width.
Proof.
  intros Hlt Hle. unfold shrink. cbn.
  replace (iter >=? b) with false by (symmetry; lia).
  replace (iter >=? maxLineSearch p) with false by (symmetry; lia).
  reflexivity.
Qed.

Lemma run_larger_budget p b xp wp fx_init test_decr iter r res r' tr :
  run_with p xp wp fx_init test_decr iter r res r' tr ->
  iter <= maxLineSearch p -> maxLineSearch p <= b ->
  res <> Threw max_iterations_reached ->
  run_with (with_maxLineSearch p b) xp wp fx_init test_decr iter r res r' tr.
Proof.
  induction 1 as [iter r Hi|iter r t Hi Ht Hv|iter r t e Hi Ht Hv
                 |iter r t width e Hi Ht Hv Hs
                 |iter r t width s res r' ts Hi Ht Hv Hs Hrun IH];
    intros Hle Hb Hres.
  - lia.
  - apply run_accept; [cbn; lia|exact Ht|exact Hv].
  - apply run_fatal; [cbn; lia|exact Ht|exact Hv].
  - assert (Hlt : iter < maxLineSearch p).
    { apply shrink_inl in Hs as [(_ & ->)|[(Hlt & _)|(Hlt & _)]];
        [congruence|exact Hlt|exact Hlt]. }
    eapply run_fail; [cbn; lia|exact Ht|exact Hv|].
    rewrite shrink_larger_budget by assumption. exact Hs.
  - apply shrink_inr in Hs as Hs'. destruct Hs' as (Hlt & _).
    eapply run_retry; [cbn; lia|exact Ht|exact Hv| |].
    + rewrite shrink_larger_budget by assumption. exact Hs.
    + apply IH; [lia|exact Hb|exact Hres].
Qed.

(** X11: a larger budget changes nothing but the budget error.  A call with
    a non-negative budget that returns, or that throws anything but the
    iteration-budget error, ends in the same way, with the same references
    and the same trials, under every larger budget. *)
Theorem larger_budget_keeps_the_outcome p b (r : refs) res r' tr :
  0 <= maxLineSearch p -> maxLineSearch p <= b ->
  search p r = (res, r', tr) ->
  res <> Threw max_iterations_reached ->
  search (with_maxLineSearch p b) r = (res, r', tr).
Proof.
  intros Hp Hb Hls Hres.
  apply LineSearch_cases in Hls as [(Hdg & -> & -> & ->)|(Hdg & Hrun)].
  - unfold LineSearch. rewrite Hdg. reflexivity.
  - apply run_LineSearch; [exact Hdg|].
    apply (run_larger_budget p b) in Hrun; [exact Hrun|lia|exact Hb|exact Hres].
Qed.

Lemma termination_fewer_tests p weak f fx_init s test_decr :
  fewer_tests weak (lineSearchTermination p) = true ->
  termination p f fx_init s test_decr = Accept ->
  termination (with_termination p weak) f fx_init s test_decr = Accept.
Proof.
  unfold termination. cbn [lineSearchTermination with_termination].
  intros Hweak. destruct (_ || _); [discriminate|].
  destruct weak, (lineSearchTermination p); try discriminate Hweak; cbn;
    try reflexivity;
    destruct (f >? fx_init)%sc; cbn; intros H;
      try discriminate H; try reflexivity; exact H.
Qed.

Lemma termination_named_not_fatal p weak strong f fx_init s test_decr e :
  fewer_tests weak strong = true ->
  termination (with_termination p weak) f fx_init s test_decr <> Fatal e.
Proof.
  unfold termination. cbn [lineSearchTermination with_termination].
  destruct weak; try (destruct strong; discriminate); intros _; cbn;
    repeat match goal with
           | |- context [if ?b then _ else _] => destruct b
           end; discriminate.
Qed.

Lemma run_fewer_tests p weak xp wp fx_init test_decr iter r res r1 tr1 :
  run_with p xp wp fx_init test_decr iter r res r1 tr1 ->
  res = Returned -> iter <= maxLineSearch p ->
  fewer_tests weak (lineSearchTermination p) = true ->
  exists r2 tr2,
    run_with (with_termination p weak) xp wp fx_init test_decr iter r
      Returned r2 tr2 /\
    tr2 `prefix_of` tr1.
Proof.
  induction 1 as [iter r Hi|iter r t Hi Ht Hv|iter r t e Hi Ht Hv
                 |iter r t width e Hi Ht Hv Hs
                 |iter r t width s res r' ts Hi Ht Hv Hs Hrun IH];
    intros Hres Hle Hweak; try discriminate Hres.
  - lia.
  - exists (after r t), [t]. split; [|reflexivity].
    apply run_accept; [exact Hi|exact Ht|].
    apply verdict_Accept in Hv as (f & Hf & Hacc).
    unfold trial_verdict. rewrite Hf.
    apply termination_fewer_tests; assumption.
  - destruct (trial_verdict (with_termination p weak) fx_init test_decr t)
      as [|width'|e] eqn:Hv'.
    + exists (after r t), [t]. split.
      * apply run_accept; [exact Hi|exact Ht|exact Hv'].
      * apply prefix_cons, prefix_nil.
    + apply shrink_inr in Hs as Hs'. destruct Hs' as (Hlt & _).
      destruct (IH Hres ltac:(lia) Hweak) as (r2 & tr2 & Hrun2 & Hpre).
      exists r2, (t :: tr2). split; [|apply prefix_cons, Hpre].
      pose proof (verdict_width _ _ _ _ _ Hv) as ->.
      pose proof (verdict_width _ _ _ _ _ Hv') as Hw'. subst width'.
      eapply run_retry; [exact Hi|exact Ht|exact Hv'|exact Hs|exact Hrun2].
    + exfalso. unfold trial_verdict in Hv'.
      destruct (t_fx t); [|discriminate].
      exact (termination_named_not_fatal _ _ _ _ _ _ _ _ Hweak Hv').
Qed.

(** X12: the three modes are nested.  When a call with a non-negative
    budget returns under a mode, the same call under a mode with fewer
    tests (NONE before DECREASE before ARMIJO) returns as well, and its
    trials are the first trials of the other call: it never builds more. *)
Theorem fewer_tests_return_no_later p weak (r : refs) r1 tr1 :
  0 <= maxLineSearch p ->
  fewer_tests weak (lineSearchTermination p) = true ->
  search p r = (Returned, r1, tr1) ->
  exists r2 tr2,
    search (with_termination p weak) r = (Returned, r2, tr2) /\
    tr2 `prefix_of` tr1.
Proof.
  intros Hp Hweak Hls.
  apply LineSearch_cases in Hls as [(_ & [=] & _)|(Hdg & Hrun)].
  destruct (run_fewer_tests p weak _ _ _ _ _ _ _ _ _ Hrun eq_refl Hp Hweak)
    as (r2 & tr2 & Hrun2 & Hpre).
  exists r2, tr2. split; [|exact Hpre].
  apply run_LineSearch; [exact Hdg|exact Hrun2].
Qed.

(** Products with a zero or a NaN are zeros or NaN, and adding one to a
    bound changes no comparison that was false. *)
Lemma b64_mul_zero_or_nan (a b : Scalar) :
  b = S754_nan \/ (exists sb, b = S754_zero sb) ->
  (a * b)%sc = S754_nan \/ (exists sc, (a * b)%sc = S754_zero sc).
Proof.
  intros [->|[sb ->]].
  - left. destruct a; reflexivity.
  - destruct a as [sa|sa| |sa ma ea]; cbn; eauto.
Qed.

Lemma b64_gtb_add_zero_or_nan (f fx_init y : Scalar) :
  y = S754_nan \/ (exists sy, y = S754_zero sy) ->
  (f >? fx_init)%sc = false -> (f >? fx_init + y)%sc = false.
Proof.
  intros [->|[sy ->]] Hgt.
  - destruct fx_init; reflexivity.
  - destruct fx_init as [s0|s0| |s0 m0 e0]; try exact Hgt.
    destruct s0, sy, f as [sf|sf| |sf mf ef]; cbn in *; congruence.
Qed.

Lemma termination_armijo_degenerate p f fx_init s test_decr :
  lineSearchTermination p = LINE_SEARCH_TERMINATION_ARMIJO ->
  test_decr = S754_nan \/ (exists sd, test_decr = S754_zero sd) ->
  termination p f fx_init s test_decr =
  termination (with_termination p LINE_SEARCH_TERMINATION_DECREASE)
    f fx_init s test_decr.
Proof.
  intros Hmode Hzn. unfold termination.
  cbn [lineSearchTermination with_termination]. rewrite Hmode.
  destruct (_ || _); [reflexivity|]. cbn.
  destruct (f >? fx_init)%sc eqn:Hgt; [reflexivity|].
  rewrite (b64_gtb_add_zero_or_nan f fx_init (s * test_decr)%sc
             (b64_mul_zero_or_nan s test_decr Hzn) Hgt).
  reflexivity.
Qed.

Lemma loop_armijo_degenerate p xp wp fx_init test_decr n :
  lineSearchTermination p = LINE_SEARCH_TERMINATION_ARMIJO ->
  test_decr = S754_nan \/ (exists sd, test_decr = S754_zero sd) ->
  forall iter r,
    loop mingroc p NNI fixIDx drt dw calcGrowthEnergy calcMuEnergy
      xp wp fx_init test_decr n iter r =
    loop mingroc (with_termination p LINE_SEARCH_TERMINATION_DECREASE)
      NNI fixIDx drt dw calcGrowthEnergy calcMuEnergy
      xp wp fx_init test_decr n iter r.
Proof.
  intros Hmode Hzn. induction n as [|n IH]; intros iter r; [reflexivity|].
  cbn [loop].
  assert (Hit : iteration mingroc p NNI fixIDx drt dw
                  calcGrowthEnergy calcMuEnergy xp wp fx_init test_decr iter r
                = iteration mingroc
                    (with_termination p LINE_SEARCH_TERMINATION_DECREASE)
                    NNI fixIDx drt dw calcGrowthEnergy calcMuEnergy
                    xp wp fx_init test_decr iter r).
  { unfold iteration.
    rewrite (termination_armijo_degenerate p _ fx_init (step r) test_decr
               Hmode Hzn).
    reflexivity. }
  rewrite <- Hit.
  destruct (iteration _ _ _ _ _ _ _ _ _ _ _ _ _ _) as [[c r1] t].
  destruct c; try reflexivity. rewrite IH. reflexivity.
Qed.

(** X13: a directional derivative that is zero or NaN passes the descent
    check, and the mode ARMIJO then tests nothing more than DECREASE: the
    Armijo bound is the initial energy or NaN, so the call is, result,
    references and trials, the call under the mode DECREASE. *)
Theorem flat_derivative_turns_armijo_into_decrease p (r : refs) :
  lineSearchTermination p = LINE_SEARCH_TERMINATION_ARMIJO ->
  B64.isnan (dot grad drt) = true \/ B64.eqb (dot grad drt) B64.zero = true ->
  search p r =
  search (with_termination p LINE_SEARCH_TERMINATION_DECREASE) r /\
  forall res r' tr, search p r = (res, r', tr) ->
    res <> Threw direction_increases.
Proof.
  intros Hmode Hflat.
  assert (Hzn : dot grad drt = S754_nan \/
                exists sd, dot grad drt = S754_zero sd).
  { destruct (dot grad drt) as [sd|sd| |sd md ed];
      destruct Hflat as [H|H]; try discriminate H; eauto;
      destruct sd; discriminate H. }
  assert (Hdg : (dot grad drt >? B64.zero)%sc = false)
    by (destruct Hzn as [->|[sd ->]]; reflexivity).
  split.
  - unfold LineSearch, dg_init_of. rewrite Hdg.
    cbn [ftol maxLineSearch with_termination].
    apply loop_armijo_degenerate; [exact Hmode|].
    apply b64_mul_zero_or_nan. exact Hzn.
  - intros res r' tr Hls ->.
    apply LineSearch_cases in Hls as [(Hpos & _)|(_ & Hrun)].
    + unfold dg_init_of in Hpos. congruence.
    + apply run_throws in Hrun. cbn in Hrun. intuition discriminate.
Qed.

End Comparisons.

(** ** The claims on runs of the sample instance *)

Local Abbreviation sample_search :=
  (@LineSearch Sample.collaborators Sample.mesh).
Local Abbreviation lo := (B64.of_Z2 1 (-20)).
Local Abbreviation hi := (B64.of_Z 4).
Local Abbreviation minus_one := (B64.of_Z (-1)).
Local Abbreviation quarter := (B64.of_Z2 1 (-2)).
Local Abbreviation east := (B64.of_Z 1, B64.zero).

(** The search from [x = 0.5], of energy 0.25, along [drt = -1] with the
    gradient 1, [ftol = 0.5], [minStep = 2^-20], [maxStep = 4] and the
    caller's step [s]. *)
Local Abbreviation search mode budget s :=
  (sample_search (Sample.params budget lo hi mode) tt []
     [minus_one] [east] [B64.of_Z 1] true true (Sample.start s)).
Local Abbreviation armijo_params budget :=
  (Sample.params budget lo hi LINE_SEARCH_TERMINATION_ARMIJO).
Local Abbreviation armijo_search budget s :=
  (search LINE_SEARCH_TERMINATION_ARMIJO budget s).

(** C1: a call with the negative step -0.25 is not refused.  With the mode
    NONE it builds a trial with that step, evaluates it and returns it; with
    the mode ARMIJO the trial is rejected and the call ends with the error of
    the lower step bound.  The exception of the initial check is constructed
    but never thrown. *)
Theorem negative_step_is_not_rejected :
  (B64.of_Z2 (-1) (-2) <? B64.zero)%sc = true /\
  (exists r' t,
     search LINE_SEARCH_TERMINATION_NONE 3 (B64.of_Z2 (-1) (-2))
     = (Returned, r', [t]) /\
     step r' = B64.of_Z2 (-1) (-2) /\ t_step t = B64.of_Z2 (-1) (-2) /\
     t_fx t = Some (fx r')) /\
  (exists r' t,
     search LINE_SEARCH_TERMINATION_ARMIJO 3 (B64.of_Z2 (-1) (-2))
     = (Threw step_too_small, r', [t]) /\
     t_step t = B64.of_Z2 (-1) (-2)).
Proof.
  split; [reflexivity|]. split.
  - eexists _, _. split; [vm_compute; reflexivity|]. repeat split.
  - eexists _, _. split; [vm_compute; reflexivity|]. reflexivity.
Qed.

Lemma ascent_direction_is_rejected_witness :
  (Sample.dot [B64.of_Z 1] [B64.of_Z 1] >? B64.zero)%sc = true /\
  sample_search (armijo_params 3) tt []
    [B64.of_Z 1] [east] [B64.of_Z 1] true true (Sample.start (B64.of_Z 1))
  = (Threw direction_increases, Sample.start (B64.of_Z 1), []).
Proof.
  split; [vm_compute; reflexivity|].
  apply (@ascent_direction_is_rejected Sample.collaborators).
  vm_compute; reflexivity.
Defined.

(** C2 fails as stated: the directional derivative [0 * (-1)] is zero, hence
    non-negative, and the call throws nothing before the loop: it builds a
    trial, evaluates it and returns. *)
Lemma zero_directional_derivative_is_not_rejected :
  (B64.zero <=? Sample.dot [B64.zero] [minus_one])%sc = true /\
  exists r' t,
    sample_search (armijo_params 3) tt []
      [minus_one] [east] [B64.zero] true true (Sample.start quarter)
    = (Returned, r', [t]).
Proof.
  split; [vm_compute; reflexivity|].
  eexists _, _. vm_compute; reflexivity.
Qed.

(** C3 fails as stated: with [maxStep = 1] and the caller's step 2, the first
    trial is built with the step 2, found feasible, evaluated and accepted. *)
Lemma step_above_maxStep_is_evaluated_and_accepted :
  exists r' t,
    sample_search
      (Sample.params 3 lo (B64.of_Z 1) LINE_SEARCH_TERMINATION_ARMIJO) tt []
      [B64.of_Z2 (-1) (-2)] [(quarter, B64.zero)] [B64.of_Z 1] true true
      (Sample.start (B64.of_Z 2))
    = (Returned, r', [t]) /\
    t_valid t = true /\ t_fx t = Some (fx r') /\
    t_step t = B64.of_Z 2 /\
    (t_step t >? B64.of_Z 1)%sc = true.
Proof.
  eexists _, _. split; [vm_compute; reflexivity|]. repeat split.
Qed.

Lemma step_bounds_are_checked_before_shrinking_witness :
  exists res r' tr,
    armijo_search 3 (B64.of_Z 1) = (res, r', tr) /\
    length tr = 2%nat /\
    forall (k : nat) t t', tr !! k = Some t -> tr !! S k = Some t' ->
      (t_step t <? lo)%sc = false /\
      (t_step t >? hi)%sc = false /\
      t_step t' = (t_step t * B64.half)%sc.
Proof.
  eexists _, _, _. split; [vm_compute; reflexivity|].
  split; [reflexivity|].
  refine (proj1 (@step_bounds_are_checked_before_shrinking
                   Sample.collaborators Sample.mesh (armijo_params 3) tt []
                   [minus_one] [east] [B64.of_Z 1] true true
                   (Sample.start (B64.of_Z 1)) _ _ _ _)).
  vm_compute; reflexivity.
Defined.

(** The scenario of the specification, with [ftol = 0.5]: energy 9 against
    the bound [10 + 1 * (0.5 * (-2))]. *)
Lemma termination_follows_decision_table_witness :
  first_match
    (decision_table LINE_SEARCH_TERMINATION_ARMIJO (B64.of_Z 9) (B64.of_Z 10)
       (B64.of_Z (-2)) (B64.of_Z 1) (B64.of_Z2 1 (-1)))
  = Some Accept.
Proof.
  rewrite (proj1 (@termination_follows_decision_table
                    Sample.collaborators Sample.mesh (armijo_params 3) tt []
                    [minus_one] [east] true true)).
  vm_compute; reflexivity.
Defined.

Lemma armijo_holds_on_return_witness :
  exists r' tr,
    lineSearchTermination (armijo_params 3) = LINE_SEARCH_TERMINATION_ARMIJO /\
    0 <= maxLineSearch (armijo_params 3) /\
    armijo_search 3 (B64.of_Z 1) = (Returned, r', tr) /\
    B64.isnan
      (quarter + step r' *
         (B64.of_Z2 1 (-1) * Sample.dot [B64.of_Z 1] [minus_one]))%sc
    = false /\
    (fx r' <=?
     quarter + step r' *
       (B64.of_Z2 1 (-1) * Sample.dot [B64.of_Z 1] [minus_one]))%sc
    = true.
Proof.
  eexists _, _.
  split; [reflexivity|]. split; [vm_compute; discriminate|].
  split; [vm_compute; reflexivity|]. split; [vm_compute; reflexivity|].
  refine (proj1 (@armijo_holds_on_return
                   Sample.collaborators Sample.mesh (armijo_params 3) tt []
                   [minus_one] [east] [B64.of_Z 1] true true
                   (Sample.start (B64.of_Z 1)) _ _ _ _ _ _)).
  - reflexivity.
  - vm_compute; discriminate.
  - vm_compute; reflexivity.
  - vm_compute; reflexivity.
Defined.

(** From the step 2 the first trial, [x = -1.5], is infeasible; the budget
    is 3 and the step lies between [minStep = 2^-20] and [maxStep = 4], so
    the second trial is built with the step 1. *)
Lemma infeasible_trials_are_not_evaluated_witness :
  exists res r' tr t t',
    armijo_search 3 (B64.of_Z 2) = (res, r', tr) /\
    tr !! 0%nat = Some t /\ t_valid t = false /\
    t_fx t = None /\
    tr !! 1%nat = Some t' /\
    t_step t' = (t_step t * B64.half)%sc /\
    t_step t' = B64.of_Z 1.
Proof.
  pose proof (@infeasible_trials_are_not_evaluated
                Sample.collaborators Sample.mesh (armijo_params 3) tt []
                [minus_one] [east] [B64.of_Z 1] true true
                (Sample.start (B64.of_Z 2)) _ _ _
                ltac:(vm_compute; reflexivity) 0%nat _ eq_refl)
    as (_ & _ & H).
  destruct (H eq_refl) as (Hnone & Hnext).
  vm_compute in Hnext. destruct Hnext as (t' & Hk & Hs & _).
  eexists _, _, _, _, t'. split; [vm_compute; reflexivity|].
  split; [reflexivity|]. split; [reflexivity|]. split; [exact Hnone|].
  split; [exact Hk|]. split; exact Hs.
Defined.

Lemma step_sequence_only_halves_witness :
  exists res r' tr,
    armijo_search 3 (B64.of_Z 2) = (res, r', tr) /\
    length tr = 3%nat /\
    B64.valid (B64.of_Z 2) = true /\ (B64.zero <=? B64.of_Z 2)%sc = true /\
    (forall (k : nat) t, tr !! k = Some t ->
       t_step t = halved k (B64.of_Z 2)) /\
    forall (k : nat) t t', tr !! k = Some t -> tr !! S k = Some t' ->
      (t_step t' <=? t_step t)%sc = true.
Proof.
  eexists _, _, _. split; [vm_compute; reflexivity|].
  split; [reflexivity|]. split; [reflexivity|]. split; [reflexivity|].
  pose proof (@step_sequence_only_halves
                Sample.collaborators Sample.mesh (armijo_params 3) tt []
                [minus_one] [east] [B64.of_Z 1] true true
                (Sample.start (B64.of_Z 2)) _ _ _
                ltac:(vm_compute; reflexivity)) as (H1 & _ & H3).
  split; [exact H1|]. apply H3; reflexivity.
Defined.

(** The only vertex is on the boundary and pinned: the stepped embedding
    [(1, 0)] is clipped, then put back to [(0, 0)]. *)
Lemma pinned_vertices_keep_their_base_value_witness :
  exists res r' tr,
    (forall v : CplxVector,
       length (Sample.clipToUnitCircle (m_bdyIDx Sample.disk) v) = length v) /\
    length [east] = length (w (Sample.start (B64.of_Z 1))) /\
    @LineSearch Sample.collaborators Sample.disk (armijo_params 3) tt [0%nat]
      [minus_one] [east] [B64.of_Z 1] true true (Sample.start (B64.of_Z 1))
    = (res, r', tr) /\
    length tr = 2%nat /\
    forall (k : nat) t, tr !! k = Some t ->
      forall i, In i [0%nat] -> t_w t !! i = Some (B64.zero, B64.zero).
Proof.
  assert (Hclip : forall v : CplxVector,
             length (Sample.clipToUnitCircle (m_bdyIDx Sample.disk) v)
             = length v).
  { intros v. cbn. unfold Sample.clip_one.
    destruct (v !! 0%nat); [apply length_insert|reflexivity]. }
  eexists _, _, _. split; [exact Hclip|]. split; [reflexivity|].
  split; [vm_compute; reflexivity|]. split; [reflexivity|].
  intros k t Hk i Hi.
  transitivity (w (Sample.start (B64.of_Z 1)) !! i).
  - exact (proj2 (@pinned_vertices_keep_their_base_value
                    Sample.collaborators Sample.disk (armijo_params 3) tt
                    [0%nat] [minus_one] [east] [B64.of_Z 1] true true
                    (Sample.start (B64.of_Z 1)) _ _ _ Hclip eq_refl
                    ltac:(vm_compute; reflexivity) k t Hk) i Hi).
  - destruct Hi as [<-|[]]. reflexivity.
Defined.

Lemma iteration_budget_witness :
  exists res r' tr t,
    armijo_search 0 (B64.of_Z 2) = (res, r', tr) /\
    maxLineSearch (armijo_params 0) = 0 /\
    tr !! 0%nat = Some t /\ t_valid t = false /\
    res = Threw max_iterations_reached /\ tr = [t].
Proof.
  pose proof (@iteration_budget
                Sample.collaborators Sample.mesh (armijo_params 0) tt []
                [minus_one] [east] [B64.of_Z 1] true true
                (Sample.start (B64.of_Z 2)) _ _ _
                ltac:(vm_compute; reflexivity)) as (_ & _ & _ & H).
  specialize (H eq_refl _ eq_refl eq_refl).
  eexists _, _, _, _. split; [vm_compute; reflexivity|].
  split; [reflexivity|]. split; [reflexivity|]. split; [reflexivity|].
  exact H.
Defined.

(** Along [drt = -1.5] with a budget of one retry: the first trial is
    infeasible, the second fails the Armijo test, and the caller finds the
    second trial in its references. *)
Lemma references_hold_the_last_trial_on_failure_witness :
  exists r' tr,
    sample_search (armijo_params 1) tt [] [B64.of_Z2 (-3) (-1)] [east]
      [B64.of_Z 1] true true (Sample.start (B64.of_Z 1))
    = (Threw max_iterations_reached, r', tr) /\
    max_iterations_reached <> direction_increases /\
    x r' = axpy [B64.of_Z2 1 (-1)] (step r') [B64.of_Z2 (-3) (-1)] /\
    step r' = halved (pred (length tr)) (B64.of_Z 1) /\
    fx r' = last_energy quarter tr /\
    x r' <> [B64.of_Z2 1 (-1)] /\ w r' <> [(B64.zero, B64.zero)] /\
    fx r' <> quarter /\ step r' <> B64.of_Z 1.
Proof.
  destruct (@references_hold_the_last_trial_on_failure
              Sample.collaborators Sample.mesh (armijo_params 1) tt []
              [B64.of_Z2 (-3) (-1)] [east] [B64.of_Z 1] true true
              (Sample.start (B64.of_Z 1)) _ _ _
              ltac:(vm_compute; reflexivity) ltac:(discriminate))
    as (_ & t & _ & _ & Hx & _ & _ & _ & Hs & Hfx & _).
  eexists _, _. split; [vm_compute; reflexivity|].
  split; [discriminate|]. split; [exact Hx|]. split; [exact Hs|].
  split; [exact Hfx|]. repeat split; vm_compute; discriminate.
Defined.

(** ** The further properties on runs of the sample instance *)

Lemma returned_state_is_the_accepted_trial_witness :
  exists r' tr,
    0 <= maxLineSearch (armijo_params 3) /\
    armijo_search 3 (B64.of_Z 1) = (Returned, r', tr) /\
    x r' = axpy [B64.of_Z2 1 (-1)] (step r') [minus_one] /\
    fx r' = Sample.calculateEnergy Sample.mesh
              (Sample.convertRealToComplex Sample.mesh (x r')) (w r')
              tt true true /\
    B64.isfinite (fx r') = true.
Proof.
  destruct (@returned_state_is_the_accepted_trial
              Sample.collaborators Sample.mesh (armijo_params 3) tt []
              [minus_one] [east] [B64.of_Z 1] true true
              (Sample.start (B64.of_Z 1)) _ _
              ltac:(vm_compute; discriminate)
              ltac:(vm_compute; reflexivity))
    as (Hx & _ & _ & Hfx & Hfin).
  eexists _, _. split; [vm_compute; discriminate|].
  split; [vm_compute; reflexivity|].
  split; [exact Hx|]. split; [exact Hfx|exact Hfin].
Defined.

Lemma returned_energy_does_not_increase_witness :
  exists r' tr,
    0 <= maxLineSearch (armijo_params 3) /\
    B64.isnan quarter = false /\
    armijo_search 3 (B64.of_Z 1) = (Returned, r', tr) /\
    (fx r' <=? quarter)%sc = true.
Proof.
  pose proof (@returned_energy_does_not_increase
                Sample.collaborators Sample.mesh (armijo_params 3) tt []
                [minus_one] [east] [B64.of_Z 1] true true
                (Sample.start (B64.of_Z 1)) _ _
                (or_intror eq_refl)
                ltac:(vm_compute; discriminate) eq_refl
                ltac:(vm_compute; reflexivity)) as H.
  eexists _, _. split; [vm_compute; discriminate|]. split; [reflexivity|].
  split; [vm_compute; reflexivity|exact H].
Defined.

(** Uphill from [x = 0.5] with the mode NONE: the energy rises from 0.25 to
    0.5625 and the trial is returned. *)
Lemma mode_none_returns_first_finite_feasible_trial_witness :
  exists res r' tr t f,
    sample_search (Sample.params 3 lo hi LINE_SEARCH_TERMINATION_NONE) tt []
      [B64.of_Z 1] [east] [minus_one] true true (Sample.start quarter)
    = (res, r', tr) /\
    tr !! 0%nat = Some t /\ t_fx t = Some f /\ B64.isfinite f = true /\
    (f >? quarter)%sc = true /\
    res = Returned /\ tr !! 1%nat = None /\ fx r' = f /\ step r' = t_step t.
Proof.
  pose proof (@mode_none_returns_first_finite_feasible_trial
                Sample.collaborators Sample.mesh
                (Sample.params 3 lo hi LINE_SEARCH_TERMINATION_NONE) tt []
                [B64.of_Z 1] [east] [minus_one] true true
                (Sample.start quarter) _ _ _ eq_refl
                ltac:(vm_compute; reflexivity) 0%nat _ _
                eq_refl eq_refl eq_refl) as H.
  eexists _, _, _, _, _. split; [vm_compute; reflexivity|].
  split; [reflexivity|]. split; [reflexivity|]. split; [reflexivity|].
  split; [reflexivity|exact H].
Defined.

(** The search of [armijo_search] with a mode that is none of the three:
    the first trial fails the Armijo test, the second passes it and the
    configuration error is thrown. *)
Lemma unrecognized_mode_never_returns_witness :
  exists res r' tr,
    sample_search (Sample.params 3 lo hi (LINE_SEARCH_TERMINATION_other 7))
      tt [] [minus_one] [east] [B64.of_Z 1] true true
      (Sample.start (B64.of_Z 1))
    = (res, r', tr) /\
    0 <= 3 /\ res = Threw invalid_termination /\ length tr = 2%nat /\
    res <> Returned /\
    exists t, last tr = Some t /\ t_valid t = true /\
              t_fx t = Some (fx r') /\ B64.isfinite (fx r') = true.
Proof.
  destruct (@unrecognized_mode_never_returns
              Sample.collaborators Sample.mesh
              (Sample.params 3 lo hi (LINE_SEARCH_TERMINATION_other 7))
              tt [] [minus_one] [east] [B64.of_Z 1] true true
              (Sample.start (B64.of_Z 1)) _ _ _
              ltac:(vm_compute; reflexivity)) as (H1 & H2).
  specialize (H1 7 eq_refl ltac:(vm_compute; discriminate)).
  destruct (H2 eq_refl) as (_ & t & Hl & Hv & Hf & Hfin & _).
  eexists _, _, _. split; [vm_compute; reflexivity|].
  split; [vm_compute; discriminate|]. split; [reflexivity|].
  split; [reflexivity|]. split; [exact H1|].
  exists t. repeat split; assumption.
Defined.

Lemma exceptions_of_a_call_witness :
  exists r' tr,
    armijo_search 0 (B64.of_Z 2) = (Threw max_iterations_reached, r', tr) /\
    Z.of_nat (length tr) = maxLineSearch (armijo_params 0) + 1.
Proof.
  destruct (@exceptions_of_a_call
              Sample.collaborators Sample.mesh (armijo_params 0) tt []
              [minus_one] [east] [B64.of_Z 1] true true
              (Sample.start (B64.of_Z 2)) _ _ _
              ltac:(vm_compute; reflexivity)) as (_ & _ & H & _).
  eexists _, _. split; [vm_compute; reflexivity|exact (H eq_refl)].
Defined.

Lemma budget_edge_cases_witness :
  exists res r' tr,
    armijo_search (-1) (B64.of_Z 2) = (res, r', tr) /\
    maxLineSearch (armijo_params (-1)) < 0 /\
    tr = [] /\ r' = Sample.start (B64.of_Z 2) /\ res = Returned.
Proof.
  destruct (@budget_edge_cases
              Sample.collaborators Sample.mesh (armijo_params (-1)) tt []
              [minus_one] [east] [B64.of_Z 1] true true
              (Sample.start (B64.of_Z 2)) _ _ _
              ltac:(vm_compute; reflexivity)) as (H1 & H2 & _).
  specialize (H2 eq_refl). destruct (H1 H2) as [Hr _].
  eexists _, _, _. split; [vm_compute; reflexivity|].
  split; [reflexivity|]. split; [exact H2|]. split; [exact Hr|reflexivity].
Defined.

Lemma sizes_are_kept_witness :
  exists res r' tr,
    length [minus_one] = length (x (Sample.start (B64.of_Z 2))) /\
    length [east] = length (w (Sample.start (B64.of_Z 2))) /\
    (forall v : CplxVector,
       length (Sample.clipToUnitCircle (m_bdyIDx Sample.mesh) v) = length v) /\
    armijo_search 3 (B64.of_Z 2) = (res, r', tr) /\
    length (x r') = 1%nat /\ length (w r') = 1%nat.
Proof.
  destruct (@sizes_are_kept
              Sample.collaborators Sample.mesh (armijo_params 3) tt []
              [minus_one] [east] [B64.of_Z 1] true true
              (Sample.start (B64.of_Z 2)) _ _ _
              eq_refl eq_refl (fun v => eq_refl)
              ltac:(vm_compute; reflexivity)) as (Hx & Hw & _).
  eexists _, _, _. split; [reflexivity|]. split; [reflexivity|].
  split; [intros v; reflexivity|]. split; [vm_compute; reflexivity|].
  split; [exact Hx|exact Hw].
Defined.

(** Two vertices, the first one pinned: the second follows the step. *)
Lemma unpinned_vertices_follow_the_step_witness :
  exists res r' tr t,
    sample_search (armijo_params 3) tt [0%nat] [minus_one] [east; east]
      [B64.of_Z 1] true true
      (mkRefs quarter [B64.of_Z2 1 (-1)]
         [(B64.zero, B64.zero); (B64.zero, B64.zero)] (B64.of_Z 1))
    = (res, r', tr) /\
    tr !! 1%nat = Some t /\ ~ In 1%nat [0%nat] /\
    t_w t !! 0%nat = Some (B64.zero, B64.zero) /\
    t_w t !! 1%nat = Some (B64.of_Z2 1 (-1), B64.zero).
Proof.
  assert (Hnot : ~ In 1%nat [0%nat]) by (intros [H|[]]; discriminate H).
  pose proof (@unpinned_vertices_follow_the_step
                Sample.collaborators Sample.mesh (armijo_params 3) tt
                [0%nat] [minus_one] [east; east] [B64.of_Z 1] true true
                (mkRefs quarter [B64.of_Z2 1 (-1)]
                   [(B64.zero, B64.zero); (B64.zero, B64.zero)] (B64.of_Z 1))
                _ _ _ ltac:(vm_compute; reflexivity) 1%nat _ eq_refl
                1%nat Hnot) as H.
  eexists _, _, _, _. split; [vm_compute; reflexivity|].
  split; [reflexivity|]. split; [exact Hnot|]. split; [reflexivity|].
  etransitivity; [exact H|]. vm_compute; reflexivity.
Defined.

Lemma pinning_every_vertex_freezes_the_embedding_witness :
  exists res r' tr,
    length [east] = length (w (Sample.start (B64.of_Z 1))) /\
    (forall v : CplxVector,
       length (Sample.clipToUnitCircle (m_bdyIDx Sample.disk) v) = length v) /\
    (forall i : nat, (i < 1)%nat -> In i [0%nat]) /\
    @LineSearch Sample.collaborators Sample.disk (armijo_params 3) tt [0%nat]
      [minus_one] [east] [B64.of_Z 1] true true (Sample.start (B64.of_Z 1))
    = (res, r', tr) /\
    length tr = 2%nat /\ w r' = [(B64.zero, B64.zero)].
Proof.
  assert (Hclip : forall v : CplxVector,
             length (Sample.clipToUnitCircle (m_bdyIDx Sample.disk) v)
             = length v).
  { intros v. cbn. unfold Sample.clip_one.
    destruct (v !! 0%nat); [apply length_insert|reflexivity]. }
  assert (Hall : forall i : nat, (i < 1)%nat -> In i [0%nat]).
  { intros i Hi. left. lia. }
  destruct (@pinning_every_vertex_freezes_the_embedding
              Sample.collaborators Sample.disk (armijo_params 3) tt [0%nat]
              [minus_one] [east] [B64.of_Z 1] true true
              (Sample.start (B64.of_Z 1)) _ _ _
              eq_refl Hclip Hall ltac:(vm_compute; reflexivity)) as (Hw & _).
  eexists _, _, _. split; [reflexivity|]. split; [exact Hclip|].
  split; [exact Hall|]. split; [vm_compute; reflexivity|].
  split; [reflexivity|exact Hw].
Defined.

Lemma normal_steps_shrink_without_rounding_witness :
  exists res r' tr t,
    B64.of_Z 2 = S754_finite false 4503599627370496 (-51) /\
    Zpos (digits2_pos 4503599627370496) = 53 /\ -51 <= 971 /\
    armijo_search 3 (B64.of_Z 2) = (res, r', tr) /\
    tr !! 2%nat = Some t /\ -1074 <= -51 - Z.of_nat 2 /\
    t_step t = S754_finite false 4503599627370496 (-53).
Proof.
  pose proof (@normal_steps_shrink_without_rounding
                Sample.collaborators Sample.mesh (armijo_params 3) tt []
                [minus_one] [east] [B64.of_Z 1] true true
                (Sample.start (B64.of_Z 2)) _ _ _ 4503599627370496 (-51)
                eq_refl eq_refl ltac:(vm_compute; discriminate)
                ltac:(vm_compute; reflexivity) 2%nat _ eq_refl
                ltac:(vm_compute; discriminate)) as H.
  eexists _, _, _, _. split; [reflexivity|]. split; [reflexivity|].
  split; [vm_compute; discriminate|]. split; [vm_compute; reflexivity|].
  split; [reflexivity|]. split; [vm_compute; discriminate|exact H].
Defined.

Lemma larger_budget_keeps_the_outcome_witness :
  exists r' tr,
    0 <= maxLineSearch (armijo_params 3) /\
    maxLineSearch (armijo_params 3) <= 10 /\
    armijo_search 3 (B64.of_Z 1) = (Returned, r', tr) /\
    Returned <> Threw max_iterations_reached /\
    armijo_search 10 (B64.of_Z 1) = (Returned, r', tr).
Proof.
  pose proof (@larger_budget_keeps_the_outcome
                Sample.collaborators Sample.mesh tt []
                [minus_one] [east] [B64.of_Z 1] true true
                (armijo_params 3) 10 (Sample.start (B64.of_Z 1)) _ _ _
                ltac:(vm_compute; discriminate)
                ltac:(vm_compute; discriminate)
                ltac:(vm_compute; reflexivity)
                ltac:(discriminate)) as H.
  eexists _, _. split; [vm_compute; discriminate|].
  split; [vm_compute; discriminate|]. split; [vm_compute; reflexivity|].
  split; [discriminate|exact H].
Defined.

Lemma fewer_tests_return_no_later_witness :
  exists r1 tr1 r2 tr2,
    0 <= maxLineSearch (armijo_params 3) /\
    fewer_tests LINE_SEARCH_TERMINATION_DECREASE
      (lineSearchTermination (armijo_params 3)) = true /\
    armijo_search 3 (B64.of_Z 1) = (Returned, r1, tr1) /\
    search LINE_SEARCH_TERMINATION_DECREASE 3 (B64.of_Z 1)
    = (Returned, r2, tr2) /\
    tr2 `prefix_of` tr1 /\ length tr1 = 2%nat /\ length tr2 = 1%nat.
Proof.
  pose proof (@fewer_tests_return_no_later
                Sample.collaborators Sample.mesh tt []
                [minus_one] [east] [B64.of_Z 1] true true
                (armijo_params 3) LINE_SEARCH_TERMINATION_DECREASE
                (Sample.start (B64.of_Z 1)) _ _
                ltac:(vm_compute; discriminate) eq_refl
                ltac:(vm_compute; reflexivity)) as (r2 & tr2 & Hls & Hpre).
  assert (Heq : search LINE_SEARCH_TERMINATION_DECREASE 3 (B64.of_Z 1)
                = (Returned, r2, tr2)) by exact Hls.
  eexists _, _, r2, tr2. split; [vm_compute; discriminate|].
  split; [reflexivity|]. split; [vm_compute; reflexivity|].
  split; [exact Heq|]. split; [exact Hpre|]. split; [reflexivity|].
  vm_compute in Heq. injection Heq as _ <-. reflexivity.
Defined.

Lemma flat_derivative_turns_armijo_into_decrease_witness :
  lineSearchTermination (armijo_params 3) = LINE_SEARCH_TERMINATION_ARMIJO /\
  B64.eqb (Sample.dot [B64.zero] [minus_one]) B64.zero = true /\
  sample_search (armijo_params 3) tt []
    [minus_one] [east] [B64.zero] true true (Sample.start quarter)
  = sample_search
      (with_termination (armijo_params 3) LINE_SEARCH_TERMINATION_DECREASE)
      tt [] [minus_one] [east] [B64.zero] true true (Sample.start quarter).
Proof.
  split; [reflexivity|]. split; [vm_compute; reflexivity|].
  refine (proj1 (@flat_derivative_turns_armijo_into_decrease
                   Sample.collaborators Sample.mesh tt []
                   [minus_one] [east] [B64.zero] true true
                   (armijo_params 3) (Sample.start quarter) eq_refl _)).
  right. vm_compute; reflexivity.
Defined.

(** With a mode DECREASE the first trial of [armijo_search] is returned. *)
Lemma first_passing_trial_is_returned_witness :
  exists res r' tr t f,
    search LINE_SEARCH_TERMINATION_DECREASE 3 (B64.of_Z 1) = (res, r', tr) /\
    tr !! 0%nat = Some t /\ t_fx t = Some f /\ B64.isfinite f = true /\
    (f >? quarter)%sc = false /\
    res = Returned /\ tr !! 1%nat = None /\ fx r' = f /\ step r' = t_step t.
Proof.
  pose proof (@first_passing_trial_is_returned
                Sample.collaborators Sample.mesh
                (Sample.params 3 lo hi LINE_SEARCH_TERMINATION_DECREASE) tt []
                [minus_one] [east] [B64.of_Z 1] true true
                (Sample.start (B64.of_Z 1)) _ _ _
                ltac:(vm_compute; reflexivity) 0%nat _ _
                eq_refl eq_refl eq_refl eq_refl (or_introl eq_refl)) as H.
  eexists _, _, _, _, _. split; [vm_compute; reflexivity|].
  split; [reflexivity|]. split; [reflexivity|]. split; [reflexivity|].
  split; [reflexivity|exact H].
Defined.

Lemma energy_is_untouched_without_a_feasible_trial_witness :
  exists res r' tr,
    armijo_search 0 (B64.of_Z 2) = (res, r', tr) /\
    (forall (k : nat) t, tr !! k = Some t -> t_valid t = false) /\
    length tr = 1%nat /\
    fx r' = quarter /\ x r' <> [B64.of_Z2 1 (-1)].
Proof.
  eexists _, _, _. split; [vm_compute; reflexivity|].
  match goal with
  | |- ?P /\ _ => assert (Hall : P)
  end.
  { intros k t Hk. destruct k as [|k]; [|destruct k; discriminate Hk].
    injection Hk as <-. reflexivity. }
  split; [exact Hall|]. split; [reflexivity|]. split; [|discriminate].
  exact (proj1 (@energy_is_untouched_without_a_feasible_trial
                  Sample.collaborators Sample.mesh (armijo_params 0) tt []
                  [minus_one] [east] [B64.of_Z 1] true true
                  (Sample.start (B64.of_Z 2)) _ _ _
                  ltac:(vm_compute; reflexivity) Hall)).
Defined.

(** From the step 0 every candidate is the base state, here an infeasible
    one with [x = 2]: it is rejected and rebuilt until the budget ends the
    call. *)
Lemma unshrinkable_step_is_never_repaired_witness :
  exists res r' tr,
    (B64.zero * B64.half)%sc = B64.zero /\
    sample_search
      (Sample.params 2 B64.zero hi LINE_SEARCH_TERMINATION_ARMIJO) tt []
      [minus_one] [east] [B64.of_Z 1] true true
      (mkRefs quarter [B64.of_Z 2] [(B64.zero, B64.zero)] B64.zero)
    = (res, r', tr) /\
    length tr = 3%nat /\ res = Threw max_iterations_reached /\
    step r' = B64.zero /\
    (res = Returned -> (length tr <= 1)%nat).
Proof.
  destruct (@unshrinkable_step_is_never_repaired
              Sample.collaborators Sample.mesh
              (Sample.params 2 B64.zero hi LINE_SEARCH_TERMINATION_ARMIJO)
              tt [] [minus_one] [east] [B64.of_Z 1] true true
              (mkRefs quarter [B64.of_Z 2] [(B64.zero, B64.zero)] B64.zero)
              _ _ _ eq_refl ltac:(vm_compute; reflexivity)) as (_ & Hs & Hr).
  eexists _, _, _. split; [reflexivity|]. split; [vm_compute; reflexivity|].
  split; [reflexivity|]. split; [reflexivity|]. split; [exact Hs|exact Hr].
Defined.
